(** * Authorization layer of the MyResto shared package

    A shallow embedding of the authorization decision layer:
    - [Config]         : [lib/config.ts]         (application identity)
    - [SupabaseAuth]   : [lib/supabase-auth.tsx] (session projection)
    - [Authorization]  : [lib/authorization.tsx] (entitlement hooks, gates)

    Strings are [string], JS objects used as dictionaries are [gmap]s,
    nullable values are [option]s, React state cells are record fields
    threaded explicitly, and the promises a hook is waiting for are kept
    in the hook's world together with the [cancelled] flag of each effect
    closure. *)

From stdpp Require Import gmap strings list fin_maps.

(** JavaScript truthiness of a string: only the empty string is falsy. *)
Definition truthy (s : string) : bool := negb (String.eqb s "").

(** [Array.prototype.includes] on an array of strings. *)
Definition includes (l : list string) (x : string) : bool :=
  existsb (String.eqb x) l.

(* ===================================================================== *)
(** * lib/config.ts *)
(* ===================================================================== *)

Module Config.

(** [AppId] is a union of string literals; at run time it is a string. *)
Definition AppId := string.

Record AppInfo := { app : AppId; name : string }.

(** The domain table: the keys written in the object literal. *)
Definition APP_CONFIG : gmap string AppInfo :=
  list_to_map [
    (* Production domains *)
    ("myrestoevent.com", {| app := "event"; name := "MyResto Event" |});
    ("myrestogarage.com", {| app := "garage"; name := "MyResto Garage" |});
    ("myrestoclub.com", {| app := "club"; name := "MyResto Club" |});
    ("myrestohub.com", {| app := "hub"; name := "MyResto Hub" |});
    ("myrestogear.com", {| app := "gear"; name := "MyResto Gear" |});
    ("myrestoparts.com", {| app := "parts"; name := "MyResto Parts" |});
    ("myrestolife.com", {| app := "life"; name := "MyResto Life" |});
    ("myrestorides.com", {| app := "rides"; name := "MyResto Rides" |});
    ("myrestotrack.com", {| app := "track"; name := "MyResto Track" |});
    ("myrestoplate.com", {| app := "plate"; name := "MyResto Plate" |});
    ("myrestoshow.com", {| app := "show"; name := "MyResto Show" |});
    (* www variants *)
    ("www.myrestoevent.com", {| app := "event"; name := "MyResto Event" |});
    ("www.myrestogarage.com", {| app := "garage"; name := "MyResto Garage" |});
    ("www.myrestoclub.com", {| app := "club"; name := "MyResto Club" |});
    ("www.myrestohub.com", {| app := "hub"; name := "MyResto Hub" |});
    ("www.myrestogear.com", {| app := "gear"; name := "MyResto Gear" |});
    ("www.myrestoparts.com", {| app := "parts"; name := "MyResto Parts" |});
    ("www.myrestolife.com", {| app := "life"; name := "MyResto Life" |});
    ("www.myrestorides.com", {| app := "rides"; name := "MyResto Rides" |});
    ("www.myrestotrack.com", {| app := "track"; name := "MyResto Track" |});
    ("www.myrestoplate.com", {| app := "plate"; name := "MyResto Plate" |});
    ("www.myrestoshow.com", {| app := "show"; name := "MyResto Show" |});
    (* Vercel preview domains *)
    ("myrestoevent.vercel.app", {| app := "event"; name := "MyResto Event" |});
    ("myrestogarage.vercel.app", {| app := "garage"; name := "MyResto Garage" |});
    ("myrestoclub.vercel.app", {| app := "club"; name := "MyResto Club" |})
  ].

(** The array literal inside [isValidAppId]. *)
Definition valid_app_ids : list string :=
  ["event"; "garage"; "club"; "hub"; "gear";
   "parts"; "life"; "rides"; "track"; "plate"; "show"].

Definition isValidAppId (value : string) : bool :=
  includes valid_app_ids value.

(** [APP_CONFIG] is a plain object literal, so its prototype is
    [Object.prototype], and a property read that finds no key of the
    literal goes on to the prototype.  These are the property names
    [Object.prototype] answers. *)
Definition Object_prototype_keys : list string :=
  ["constructor"; "__defineGetter__"; "__defineSetter__"; "hasOwnProperty";
   "__lookupGetter__"; "__lookupSetter__"; "isPrototypeOf";
   "propertyIsEnumerable"; "toString"; "valueOf"; "__proto__";
   "toLocaleString"].

(** What a property read on [APP_CONFIG] gives: the entry written under
    that key, or an inherited member of [Object.prototype] (a function, or
    the prototype itself for [__proto__]: a truthy value without an [app]
    property), or [undefined]. *)
Inductive Property :=
| Own (entry : AppInfo)
| Inherited
| Missing.

(** [APP_CONFIG[hostname]] *)
Definition APP_CONFIG_get (h : string) : Property :=
  match APP_CONFIG !! h with
  | Some entry => Own entry
  | None => if includes Object_prototype_keys h then Inherited else Missing
  end.

(** The two ambient inputs of [getCurrentApp]: [hostname] is
    [window.location.hostname] ([None] when [window] is undefined, as on
    the server) and [VITE_APP_ID] is [import.meta.env?.VITE_APP_ID]
    ([None] when [import.meta] or the variable is absent). *)
Record Env := { hostname : option string; VITE_APP_ID : option string }.

(** The result [None] is "no application id": the [null] of the last line,
    or the [undefined] that [entry.app] is when [entry] is an inherited
    member.  The callers do not tell the two apart ([!appId], [??]). *)
Definition getCurrentApp (e : Env) : option AppId :=
  let fallback :=
    match VITE_APP_ID e with
    | Some envAppId =>
        if truthy envAppId && isValidAppId envAppId
        then Some envAppId
        else None
    | None => None
    end in
  match hostname e with
  | Some h =>
      match APP_CONFIG_get h with
      | Own entry => Some (app entry)
      | Inherited => None
      | Missing => fallback
      end
  | None => fallback
  end.

(** The object literal of [APP_CONFIG] once more, as the list of its
    properties in source order, which is the order [Object.values]
    follows. *)
Definition APP_CONFIG_literal : list (string * AppInfo) :=
  [
      (* Production domains *)
      ("myrestoevent.com", {| app := "event"; name := "MyResto Event" |});
      ("myrestogarage.com", {| app := "garage"; name := "MyResto Garage" |});
      ("myrestoclub.com", {| app := "club"; name := "MyResto Club" |});
      ("myrestohub.com", {| app := "hub"; name := "MyResto Hub" |});
      ("myrestogear.com", {| app := "gear"; name := "MyResto Gear" |});
      ("myrestoparts.com", {| app := "parts"; name := "MyResto Parts" |});
      ("myrestolife.com", {| app := "life"; name := "MyResto Life" |});
      ("myrestorides.com", {| app := "rides"; name := "MyResto Rides" |});
      ("myrestotrack.com", {| app := "track"; name := "MyResto Track" |});
      ("myrestoplate.com", {| app := "plate"; name := "MyResto Plate" |});
      ("myrestoshow.com", {| app := "show"; name := "MyResto Show" |});
      (* www variants *)
      ("www.myrestoevent.com", {| app := "event"; name := "MyResto Event" |});
      ("www.myrestogarage.com", {| app := "garage"; name := "MyResto Garage" |});
      ("www.myrestoclub.com", {| app := "club"; name := "MyResto Club" |});
      ("www.myrestohub.com", {| app := "hub"; name := "MyResto Hub" |});
      ("www.myrestogear.com", {| app := "gear"; name := "MyResto Gear" |});
      ("www.myrestoparts.com", {| app := "parts"; name := "MyResto Parts" |});
      ("www.myrestolife.com", {| app := "life"; name := "MyResto Life" |});
      ("www.myrestorides.com", {| app := "rides"; name := "MyResto Rides" |});
      ("www.myrestotrack.com", {| app := "track"; name := "MyResto Track" |});
      ("www.myrestoplate.com", {| app := "plate"; name := "MyResto Plate" |});
      ("www.myrestoshow.com", {| app := "show"; name := "MyResto Show" |});
      (* Vercel preview domains *)
      ("myrestoevent.vercel.app", {| app := "event"; name := "MyResto Event" |});
      ("myrestogarage.vercel.app", {| app := "garage"; name := "MyResto Garage" |});
      ("myrestoclub.vercel.app", {| app := "club"; name := "MyResto Club" |})
    ].

(** [Object.values(APP_CONFIG)] *)
Definition APP_CONFIG_values : list AppInfo := map snd APP_CONFIG_literal.

Definition getCurrentAppInfo (e : Env) : option AppInfo :=
  match getCurrentApp e with
  | None => None
  | Some appId =>
      if truthy appId
      then List.find (λ info, String.eqb (app info) appId) APP_CONFIG_values
      else None
  end.

Global Arguments APP_CONFIG : simpl never.
Global Arguments APP_CONFIG_get : simpl never.
Global Arguments getCurrentApp : simpl never.
Global Arguments APP_CONFIG_literal : simpl never.
Global Arguments APP_CONFIG_values : simpl never.

End Config.

(* ===================================================================== *)
(** * lib/supabase-auth.tsx *)
(* ===================================================================== *)

(** A thrown [Error] is [inl message]; a normal return is [inr value]. *)
Definition Exc (A : Type) : Type := string + A.

Definition throw {A} (msg : string) : Exc A := inl msg.

Definition bindE {A B} (m : Exc A) (k : A → Exc B) : Exc B :=
  match m with
  | inl e => inl e
  | inr a => k a
  end.

Module SupabaseAuth.

(** JSON values, as found in [user_metadata] and [app_metadata]. *)
#[local] Unset Elimination Schemes.
Inductive JValue :=
| JNull
| JBool (b : bool)
| JNum (n : Z)
| JStr (s : string)
| JArr (items : list JValue)
| JObj (fields : list (string * JValue)).
#[local] Set Elimination Schemes.

(** A property read [o.k], which is [undefined] ([None]) when absent. *)
Definition prop (o : gmap string JValue) (k : string) : option JValue := o !! k.

(** [v ?? d]: [d] replaces [null] and [undefined], nothing else. *)
Definition nullish (v : option JValue) : bool :=
  match v with
  | None | Some JNull => true
  | Some _ => false
  end.

Definition coalesce (v : option JValue) (d : JValue) : JValue :=
  match v with
  | None | Some JNull => d
  | Some x => x
  end.

(** [v === s] for a string literal [s]. *)
Definition strict_eq_str (v : option JValue) (s : string) : bool :=
  match v with
  | Some (JStr t) => String.eqb t s
  | _ => false
  end.

(** The provider's [User] and [Session] records (the fields this layer
    reads). *)
Record User := {
  id : string;
  email : option string;
  user_metadata : option (gmap string JValue);
  app_metadata : option (gmap string JValue);
}.

Record Session := { user : User; access_token : string }.

(** ** AuthProvider *)

(** The two state cells of [AuthProvider]. *)
Record ProviderState := { session : option Session; isLoaded : bool }.

(** [useState<Session | null>(null)], [useState(false)]. *)
Definition initial : ProviderState := {| session := None; isLoaded := false |}.

(** What the provider does to the component, once its effect has
    subscribed:
    - [SessionFetched s]: the promise of [getSession()] resolves with [s];
    - [AuthStateChange s]: the listener given to [onAuthStateChange] is
      called with session [s];
    - [SignOutResolved err]: the promise of [supabase.auth.signOut()]
      settles with result [{ error: err }], which is the moment the
      [signOut] callback of this file resolves. *)
Inductive ProviderEvent :=
| SessionFetched (s : option Session)
| AuthStateChange (s : option Session)
| SignOutResolved (err : option string).

(** A state update is read by the next render; [run] gives the cells the
    next render reads. *)
Definition step (st : ProviderState) (e : ProviderEvent) : ProviderState :=
  match e with
  | SessionFetched s => {| session := s; isLoaded := true |}   (* setSession(s); setIsLoaded(true) *)
  | AuthStateChange s => {| session := s; isLoaded := isLoaded st |}  (* setSession(s) *)
  | SignOutResolved _ => st        (* await supabase.auth.signOut(); nothing else *)
  end.

Definition run (tr : list ProviderEvent) (st : ProviderState) : ProviderState :=
  fold_left step tr st.

(** The context value (without the callbacks and the client). *)
Record AuthContextType := {
  ctx_session : option Session;
  ctx_user : option User;
  ctx_isLoaded : bool;
  ctx_isSignedIn : bool;
}.

Definition value (st : ProviderState) : AuthContextType :=
  {| ctx_session := session st;
     ctx_user := user <$> session st;        (* session?.user ?? null *)
     ctx_isLoaded := isLoaded st;
     ctx_isSignedIn := bool_decide (is_Some (session st)) |}.   (* !!session *)

(** [useContext(AuthContext)] is [None] outside of an [<AuthProvider>]. *)
Definition useAuthContext (c : option AuthContextType) : Exc AuthContextType :=
  match c with
  | None => throw "useAuth / useUser must be used inside <AuthProvider>"
  | Some ctx => inr ctx
  end.

(** A component or hook [f] called under the nearest context [c]; [f]
    receives what [useAuthContext] returned. *)
Definition under {A} (c : option AuthContextType) (f : AuthContextType → A) : Exc A :=
  bindE (useAuthContext c) (λ ctx, inr (f ctx)).

(** ** useAuth *)

Record UseAuthResult := {
  auth_isLoaded : bool;
  auth_isSignedIn : bool;
  auth_userId : option string;
}.

Definition useAuth (ctx : AuthContextType) : UseAuthResult :=
  {| auth_isLoaded := ctx_isLoaded ctx;
     auth_isSignedIn := ctx_isSignedIn ctx;
     auth_userId := id <$> ctx_user ctx |}.

(** ** useUser *)

Record ClerkUser := {
  cu_id : string;
  primaryEmailAddress : option string;
  emailAddresses : list (option string);
  firstName : JValue;
  lastName : JValue;
  fullName : JValue;
  imageUrl : JValue;
  username : JValue;
  publicMetadata : gmap string JValue;
}.

Record UseUserResult := {
  uu_user : option ClerkUser;
  uu_isSignedIn : bool;
  uu_isLoaded : bool;
}.

Definition generated_avatar (uid : string) : string :=
  "https://api.dicebear.com/7.x/avataaars/svg?seed=" +:+ uid.

Definition useUser (ctx : AuthContextType) : UseUserResult :=
  match ctx_user ctx with
  | None => {| uu_user := None; uu_isSignedIn := false; uu_isLoaded := ctx_isLoaded ctx |}
  | Some u =>
      let meta := default ∅ (user_metadata u) in
      {| uu_user := Some
           {| cu_id := id u;
              primaryEmailAddress := email u;
              emailAddresses := [email u];
              firstName := coalesce (prop meta "first_name") JNull;
              lastName := coalesce (prop meta "last_name") JNull;
              fullName := coalesce (prop meta "full_name") JNull;
              imageUrl := coalesce (prop meta "avatar_url") (JStr (generated_avatar (id u)));
              username := coalesce (prop meta "username") JNull;
              publicMetadata := default ∅ (app_metadata u) |};
         uu_isSignedIn := true;
         uu_isLoaded := true |}
  end.

(** ** Notions used to state properties *)

(** The [avatar_url] the provider metadata carries, if any. *)
Definition avatar_url (u : User) : option JValue :=
  prop (default ∅ (user_metadata u)) "avatar_url".

(** The session an event hands to [setSession], if it hands one. *)
Definition delivered (e : ProviderEvent) : option (option Session) :=
  match e with
  | SessionFetched s | AuthStateChange s => Some s
  | SignOutResolved _ => None
  end.

Definition last_delivered (tr : list ProviderEvent) (s0 : option Session) : option Session :=
  fold_left (λ acc e, default acc (delivered e)) tr s0.

End SupabaseAuth.

(* ===================================================================== *)
(** * A hook instance: state cells, effect bookkeeping, pending promises *)
(* ===================================================================== *)

(** Both entitlement hooks have the same anatomy: two [useState] cells (a
    data cell and [loading]), one [useEffect] whose body may start a query
    and return the cleanup [() => { cancelled = true }], and a [.then]
    callback that first tests the [cancelled] variable of the effect run
    that created it.  Each run of the effect body that declares
    [let cancelled = false] is a closure, numbered in creation order. *)
Module Hook.
Section World.
Context {D Q V : Type} `{!EqDecision D}.

Record World := mkWorld {
  cell : V;                 (* the data cell: [roles] / [subscription] *)
  loading : bool;           (* the [loading] cell *)
  last_deps : option D;     (* dependency array of the last effect run *)
  cleanup : option nat;     (* closure whose cleanup function React holds *)
  cancelled : gset nat;     (* closures whose [cancelled] is [true] *)
  inflight : gmap nat Q;    (* promises not settled yet, by closure *)
  next_closure : nat;
  console : list (list string);   (* arguments of each [console.error] *)
  network : list Q;         (* every query sent so far *)
}.

(** State on mount: [useState(init)], [useState(true)]. *)
Definition mount (init : V) : World :=
  mkWorld init true None None ∅ ∅ 0 [] [].

Definition setCell (v : V) (w : World) : World :=
  mkWorld v (loading w) (last_deps w) (cleanup w) (cancelled w)
          (inflight w) (next_closure w) (console w) (network w).

Definition setLoading (b : bool) (w : World) : World :=
  mkWorld (cell w) b (last_deps w) (cleanup w) (cancelled w)
          (inflight w) (next_closure w) (console w) (network w).

Definition console_error (args : list string) (w : World) : World :=
  mkWorld (cell w) (loading w) (last_deps w) (cleanup w) (cancelled w)
          (inflight w) (next_closure w) (console w ++ [args]) (network w).

(** [let cancelled = false] followed by sending query [q] with a [.then]
    callback of this closure; returns the closure. *)
Definition send (q : Q) (w : World) : nat * World :=
  let c := next_closure w in
  (c, mkWorld (cell w) (loading w) (last_deps w) (cleanup w) (cancelled w)
              (<[c := q]> (inflight w)) (S c) (console w) (network w ++ [q])).

(** The cleanup function of closure [c]: [cancelled = true]. *)
Definition cancel (c : nat) (w : World) : World :=
  mkWorld (cell w) (loading w) (last_deps w) (cleanup w) ({[c]} ∪ cancelled w)
          (inflight w) (next_closure w) (console w) (network w).

Definition is_cancelled (c : nat) (w : World) : bool :=
  bool_decide (c ∈ cancelled w).

(** [useEffect(body, deps)]: when [deps] differ from those of the last
    run (or on mount), React calls the cleanup returned by the last run,
    if any, then the body, and keeps the cleanup the body returns. *)
Definition useEffect (body : World → option nat * World) (deps : D) (w : World) : World :=
  if decide (last_deps w = Some deps) then w
  else
    let w1 := match cleanup w with Some c => cancel c w | None => w end in
    let '(ret, w2) := body w1 in
    mkWorld (cell w2) (loading w2) (Some deps) ret (cancelled w2)
            (inflight w2) (next_closure w2) (console w2) (network w2).

(** The promise of closure [c] settles with response [r]: its [.then]
    callback [k] runs.  A promise settles once, and only if it was sent. *)
Definition settle {R} (k : nat → R → World → World) (c : nat) (r : R) (w : World) : World :=
  match inflight w !! c with
  | None => w
  | Some _ =>
      k c r (mkWorld (cell w) (loading w) (last_deps w) (cleanup w) (cancelled w)
                     (delete c (inflight w)) (next_closure w) (console w) (network w))
  end.

(** ** Well-formed worlds *)

(** Closures are numbered below [next_closure], and a promise in flight
    whose closure is not cancelled belongs to the effect run whose cleanup
    React holds. *)
Record wf (w : World) : Prop := {
  wf_cancelled : ∀ c, c ∈ cancelled w → c < next_closure w;
  wf_inflight : ∀ c q, inflight w !! c = Some q → c < next_closure w;
  wf_cleanup : ∀ c, cleanup w = Some c → c < next_closure w;
  wf_live : ∀ c q, inflight w !! c = Some q → c ∉ cancelled w → cleanup w = Some c;
}.

(** The shapes an effect body can have: it starts no query and returns no
    cleanup, or it sends one query from a fresh closure and returns that
    closure's cleanup. *)
Inductive effect_shape (w : World) : option nat * World → Prop :=
| shape_quiet w' :
    cancelled w' = cancelled w → inflight w' = inflight w →
    next_closure w' = next_closure w →
    effect_shape w (None, w')
| shape_fetch q w' :
    cancelled w' = cancelled w → inflight w' = <[next_closure w := q]> (inflight w) →
    next_closure w' = S (next_closure w) →
    effect_shape w (Some (next_closure w), w').

(** What a render can read: the two cells; and what the console shows. *)
Definition observable (w : World) : V * bool * list (list string) :=
  (cell w, loading w, console w).

(** The cancelled flags after the cleanup React holds has run. *)
Definition after_cleanup (w : World) : gset nat :=
  match cleanup w with
  | Some c => {[c]} ∪ cancelled w
  | None => cancelled w
  end.

(** An effect body that sends [q]: [setLoading(true)], then the query from
    a fresh closure, whose cleanup it returns. *)
Definition fetch_body (body : World → option nat * World) (q : Q) : Prop :=
  ∀ w, body w = (Some (next_closure w), snd (send q (setLoading true w))).

(** A [.then] callback that returns at once when its closure is cancelled
    and otherwise stores [val r], clears [loading] and logs [lg r]. *)
Definition handler_spec {R} (k : nat → R → World → World)
    (val : R → V) (lg : R → list (list string)) : Prop :=
  ∀ c r w,
    k c r w =
      if is_cancelled c w then w
      else mkWorld (val r) false (last_deps w) (cleanup w) (cancelled w)
                   (inflight w) (next_closure w) (console w ++ lg r) (network w).

End World.
Global Arguments World : clear implicits.
End Hook.

(* ===================================================================== *)
(** * lib/authorization.tsx *)
(* ===================================================================== *)

(** What a component returns: [null], an opaque element, or a fragment
    [<>{child}</>]. *)
Inductive ReactNode :=
| null
| element (e : string)
| fragment (child : ReactNode).

(** The elements a node puts on the page; [null] and a fragment around
    [null] put nothing. *)
Fixpoint painted (n : ReactNode) : list string :=
  match n with
  | null => []
  | element e => [e]
  | fragment c => painted c
  end.

Module Authorization.
Import Config SupabaseAuth Hook.

(** ** Types *)

Record UserRole := {
  ur_id : string;
  ur_user_id : string;
  ur_app : string;
  ur_role : string;
  granted_at : string;
  granted_by : option string;
}.

Record Subscription := {
  sub_id : string;
  sub_user_id : string;
  stripe_subscription_id : option string;
  stripe_customer_id : option string;
  plan : string;
  status : string;
  current_period_start : option string;
  current_period_end : option string;
  cancel_at_period_end : bool;
  created_at : string;
  updated_at : string;
}.

(** The [{ data, error }] pair a query promise resolves with. *)
Record PostgrestError := { message : string; code : string }.

Record Response (A : Type) := { data : option A; error : option PostgrestError }.
Arguments data {A} _.
Arguments error {A} _.

(** ** useIsSuperAdmin *)

Definition useIsSuperAdmin (ctx : AuthContextType) : bool :=
  match uu_user (useUser ctx) with
  | None => false
  | Some user => strict_eq_str (prop (publicMetadata user) "role") "super_admin"
  end.

(** ** useAppRole *)

(** [.from('user_roles').select('role').eq('user_id', userId).eq('app', app)] *)
Record RoleQuery := { rq_user_id : string; rq_app : string }.

(** A row of the answer: [{ role: string }]. *)
Record RoleRow := { role : string }.

Abbreviation RoleDeps := (option string * option string * bool)%type.
Abbreviation RoleWorld := (World RoleDeps RoleQuery (list string)).

Record UseAppRoleResult := {
  roles : list string;
  hasRole : string → bool;
  ar_loading : bool;
}.

Definition useAppRole_effect (userId app : option string) (isSuperAdmin : bool)
    (w : RoleWorld) : option nat * RoleWorld :=
  if isSuperAdmin then (None, setLoading false w)
  else
    match userId, app with
    | Some u, Some a =>
        if truthy u && truthy a then
          let w := setLoading true w in
          let '(c, w) := send {| rq_user_id := u; rq_app := a |} w in
          (Some c, w)
        else (None, setLoading false (setCell [] w))
    | _, _ => (None, setLoading false (setCell [] w))
    end.

(** The [.then(({ data, error }) => ...)] callback of closure [c]. *)
Definition useAppRole_then (c : nat) (r : Response (list RoleRow)) (w : RoleWorld) : RoleWorld :=
  if is_cancelled c w then w
  else
    let w :=
      match error r with
      | Some e => setCell [] (console_error ["[useAppRole]"; message e] w)
      | None => setCell (default [] (map role <$> data r)) w
      end in
    setLoading false w.

(** [appOverride ?? getCurrentApp()] *)
Definition current_app (appOverride : option AppId) (env : Env) : option AppId :=
  match appOverride with
  | Some a => Some a
  | None => getCurrentApp env
  end.

(** One call of the hook, that is, one render.  The result is computed
    from the cells as they are when the component function runs; the
    effect runs after the render, and what it writes is read by the next
    render.  The [supabase] client in the dependency array is a singleton
    and never changes. *)
Definition useAppRole (appOverride : option AppId) (ctx : AuthContextType) (env : Env)
    (w : RoleWorld) : UseAppRoleResult * RoleWorld :=
  let user := uu_user (useUser ctx) in
  let isSuperAdmin := useIsSuperAdmin ctx in
  let roles_ := cell w in
  let loading_ := loading w in
  let app := current_app appOverride env in
  let userId := cu_id <$> user in
  let w' := useEffect (useAppRole_effect userId app isSuperAdmin) (userId, app, isSuperAdmin) w in
  (if isSuperAdmin
   then {| roles := ["super_admin"]; hasRole := λ _, true; ar_loading := false |}
   else {| roles := roles_; hasRole := λ r, includes roles_ r; ar_loading := loading_ |},
   w').

(** ** useSubscription *)

(** [.from('subscriptions').select('*').eq('user_id', userId).single()] *)
Record SubQuery := { sq_user_id : string }.

Abbreviation SubDeps := (option string).
Abbreviation SubWorld := (World SubDeps SubQuery (option Subscription)).

Record UseSubscriptionResult := {
  us_plan : string;
  isPro : bool;
  isActive : bool;
  subscription : option Subscription;
  us_loading : bool;
}.

Definition useSubscription_effect (userId : option string) (w : SubWorld)
    : option nat * SubWorld :=
  match userId with
  | Some u =>
      if truthy u then
        let w := setLoading true w in
        let '(c, w) := send {| sq_user_id := u |} w in
        (Some c, w)
      else (None, setLoading false (setCell None w))
  | None => (None, setLoading false (setCell None w))
  end.

Definition useSubscription_then (c : nat) (r : Response Subscription) (w : SubWorld) : SubWorld :=
  if is_cancelled c w then w
  else
    let w :=
      match error r with
      | Some e => setCell None (console_error ["[useSubscription]"; message e] w)
      | None => setCell (data r) w
      end in
    setLoading false w.

Definition useSubscription (ctx : AuthContextType) (w : SubWorld)
    : UseSubscriptionResult * SubWorld :=
  let user := uu_user (useUser ctx) in
  let isSuperAdmin := useIsSuperAdmin ctx in
  let subscription_ := cell w in
  let loading_ := loading w in
  let userId := cu_id <$> user in
  let w' := useEffect (useSubscription_effect userId) userId w in
  let plan_ := default "free" (plan <$> subscription_) in
  let isActive_ :=
    match subscription_ with
    | Some s => String.eqb (status s) "active" || String.eqb (status s) "trialing"
    | None => false
    end in
  let isPro_ := isSuperAdmin || (String.eqb plan_ "pro" && isActive_) in
  ({| us_plan := plan_; isPro := isPro_; isActive := isActive_;
      subscription := subscription_; us_loading := loading_ |}, w').

(** ** Gate components *)

(** [fallback = null] is a default parameter: it applies when the caller
    passes no [fallback] ([None]). *)
Record GateProps := { children : ReactNode; fallback : option ReactNode }.

Definition RequireAuth (p : GateProps) (ctx : AuthContextType) : ReactNode :=
  let fallback_ := default null (fallback p) in
  let a := useAuth ctx in
  if negb (auth_isLoaded a) then null
  else if negb (auth_isSignedIn a) then fragment fallback_
  else fragment (children p).

Definition RequirePro (p : GateProps) (ctx : AuthContextType) (w : SubWorld)
    : ReactNode * SubWorld :=
  let fallback_ := default null (fallback p) in
  let '(r, w') := useSubscription ctx w in
  (if us_loading r then null
   else if negb (isPro r) then fragment fallback_
   else fragment (children p), w').

Record RequireRoleProps := {
  rr_role : string;
  rr_app : option AppId;
  rr_children : ReactNode;
  rr_fallback : option ReactNode;
}.

Definition RequireRole (p : RequireRoleProps) (ctx : AuthContextType) (env : Env)
    (w : RoleWorld) : ReactNode * RoleWorld :=
  let fallback_ := default null (rr_fallback p) in
  let '(r, w') := useAppRole (rr_app p) ctx env w in
  (if ar_loading r then null
   else if negb (hasRole r (rr_role p)) then fragment fallback_
   else fragment (rr_children p), w').

(** ** The stores behind the queries *)

(** The answer of the role store to a query: the [role] column of the
    rows of [user_roles] that match both equality filters. *)
Definition matches (q : RoleQuery) (r : UserRole) : bool :=
  String.eqb (ur_user_id r) (rq_user_id q) && String.eqb (ur_app r) (rq_app q).

Definition role_answer (user_roles : list UserRole) (q : RoleQuery)
    : Response (list RoleRow) :=
  {| data := Some (map (λ r, {| role := ur_role r |}) (filter (λ r, matches q r = true) user_roles));
     error := None |}.

(** The query builder's [.single()]: the promise resolves with the row
    when the filters select exactly one, and with the error [PGRST116]
    and no data when they select none or several. *)
Definition single (rows : list Subscription) : Response Subscription :=
  match rows with
  | [row] => {| data := Some row; error := None |}
  | _ =>
      {| data := None;
         error := Some {| message := "JSON object requested, multiple (or no) rows returned";
                          code := "PGRST116" |} |}
  end.

Definition sub_answer (subscriptions : list Subscription) (q : SubQuery)
    : Response Subscription :=
  single (filter (λ s, String.eqb (sub_user_id s) (sq_user_id q) = true) subscriptions).

(** A query that never reached the store. *)
Definition transport_failure {A} (msg : string) : Response A :=
  {| data := None; error := Some {| message := msg; code := "" |} |}.

(** ** Runs of a hook instance *)

Inductive RoleEvent :=
| RoleRender (appOverride : option AppId) (ctx : AuthContextType) (env : Env)
| RoleSettle (c : nat) (r : Response (list RoleRow)).

Definition role_step (w : RoleWorld) (e : RoleEvent) : RoleWorld :=
  match e with
  | RoleRender a ctx env => snd (useAppRole a ctx env w)
  | RoleSettle c r => settle useAppRole_then c r w
  end.

Definition role_run (tr : list RoleEvent) : RoleWorld :=
  fold_left role_step tr (mount []).

Inductive SubEvent :=
| SubRender (ctx : AuthContextType)
| SubSettle (c : nat) (r : Response Subscription).

Definition sub_step (w : SubWorld) (e : SubEvent) : SubWorld :=
  match e with
  | SubRender ctx => snd (useSubscription ctx w)
  | SubSettle c r => settle useSubscription_then c r w
  end.

Definition sub_run (tr : list SubEvent) : SubWorld :=
  fold_left sub_step tr (mount None).

(** ** Notions used to state properties *)

(** The dependency array of [useAppRole] for given inputs, and the query
    its effect body sends for a dependency array, if it sends one. *)
Definition role_deps (appOverride : option AppId) (ctx : AuthContextType) (env : Env) : RoleDeps :=
  (cu_id <$> uu_user (useUser ctx),
   current_app appOverride env,
   useIsSuperAdmin ctx).

Definition role_query (d : RoleDeps) : option RoleQuery :=
  match d with
  | (Some u, Some a, false) =>
      if truthy u && truthy a then Some {| rq_user_id := u; rq_app := a |} else None
  | _ => None
  end.

Definition sub_deps (ctx : AuthContextType) : SubDeps := cu_id <$> uu_user (useUser ctx).

Definition sub_query (d : SubDeps) : option SubQuery :=
  match d with
  | Some u => if truthy u then Some {| sq_user_id := u |} else None
  | None => None
  end.

(** What a response stands for: the roles (resp. the subscription) it
    carries, none on error, and the line it should put on the console. *)
Definition roles_of (r : Response (list RoleRow)) : list string :=
  match error r with
  | Some _ => []
  | None => default [] (map role <$> data r)
  end.

Definition subscription_of (r : Response Subscription) : option Subscription :=
  match error r with
  | Some _ => None
  | None => data r
  end.

Definition logged {A} (tag : string) (r : Response A) : list (list string) :=
  match error r with
  | Some e => [[tag; message e]]
  | None => []
  end.

(** [granted user_roles u a r]: the table grants role [r] to user [u] in
    application [a]. *)
Definition granted (user_roles : list UserRole) (u a r : string) : bool :=
  existsb (λ row, String.eqb (ur_user_id row) u && String.eqb (ur_app row) a
                  && String.eqb (ur_role row) r) user_roles.

(** Runs in which the role store answers: a promise settles with the
    store's answer to its query, or with a failure. *)
Inductive StoreEvent :=
| Rendered (appOverride : option AppId) (ctx : AuthContextType) (env : Env)
| Answered (c : nat)
| Failed (c : nat) (msg : string).

Definition role_reply (user_roles : list UserRole) (w : RoleWorld) (e : StoreEvent) : RoleEvent :=
  match e with
  | Rendered a ctx env => RoleRender a ctx env
  | Answered c =>
      RoleSettle c (match inflight w !! c with
                    | Some q => role_answer user_roles q
                    | None => transport_failure ""
                    end)
  | Failed c msg => RoleSettle c (transport_failure msg)
  end.

Definition role_store_run (user_roles : list UserRole) (tr : list StoreEvent) : RoleWorld :=
  fold_left (λ w e, role_step w (role_reply user_roles w e)) tr (mount []).

(** What holds of the role hook in every run against a store: a promise
    whose closure is live asks for the current dependencies; once the
    current query has settled the cell holds only roles the store grants
    to that user in that application; and with no user or no application
    the cell is empty. *)
Record role_inv (user_roles : list UserRole) (w : RoleWorld) : Prop := {
  inv_wf : wf w;
  inv_live : ∀ c q, inflight w !! c = Some q → c ∉ cancelled w →
             ∃ d, last_deps w = Some d ∧ role_query d = Some q;
  inv_settled : ∀ d q, last_deps w = Some d → role_query d = Some q → loading w = false →
                ∀ r, In r (cell w) → granted user_roles (rq_user_id q) (rq_app q) r = true;
  inv_idle : ∀ d, last_deps w = Some d → d.2 = false → role_query d = None →
             cell w = [] ∧ loading w = false;
}.

(** Events that settle a promise, as opposed to renders. *)
Definition is_role_settle (e : RoleEvent) : bool :=
  match e with
  | RoleSettle _ _ => true
  | RoleRender _ _ _ => false
  end.

Definition is_sub_settle (e : SubEvent) : bool :=
  match e with
  | SubSettle _ _ => true
  | SubRender _ => false
  end.

(** A subscription that makes its holder Pro: plan ["pro"] and status
    ["active"] or ["trialing"]. *)
Definition pro_and_active (s : Subscription) : Prop :=
  plan s = "pro" ∧ (status s = "active" ∨ status s = "trialing").

End Authorization.

(* ===================================================================== *)
(** * lib/supabase-auth.tsx, continued: client, wrappers and forms *)
(* ===================================================================== *)

Module Components.
Import SupabaseAuth.

(** ** The client singleton *)

(** A client, by what [createClient(url, key)] was given. *)
Record SupabaseClient := { supabaseUrl : string; supabaseKey : string }.

(** [import.meta.env], as far as [getSupabase] reads it. *)
Record ImportMetaEnv := {
  VITE_SUPABASE_URL : option string;
  VITE_SUPABASE_ANON_KEY : option string;
}.

Section Client.

(** [createClient] is the provider library's.  It validates its
    arguments and throws on those it refuses (a URL that is not an http or
    https URL, for one), so it is taken here as any function that returns
    a client or throws. *)
Variable createClient : string → string → Exc SupabaseClient.

(** [getSupabase()] over the module variable [_supabase]: the result (or
    the error thrown) and the new value of the variable.  The assignment
    to [_supabase] happens only when [createClient] has returned. *)
Definition getSupabase (env : ImportMetaEnv) (_supabase : option SupabaseClient)
    : Exc SupabaseClient * option SupabaseClient :=
  match _supabase with
  | Some client => (inr client, Some client)
  | None =>
      match VITE_SUPABASE_URL env, VITE_SUPABASE_ANON_KEY env with
      | Some url, Some key =>
          if negb (truthy url) || negb (truthy key)
          then (throw "Missing VITE_SUPABASE_URL or VITE_SUPABASE_ANON_KEY environment variables",
                None)
          else
            match createClient url key with
            | inr client => (inr client, Some client)
            | inl err => (inl err, None)
            end
      | _, _ =>
          (throw "Missing VITE_SUPABASE_URL or VITE_SUPABASE_ANON_KEY environment variables",
           None)
      end
  end.

(** A sequence of calls, each under the environment of its time: the
    results in call order and the final value of [_supabase]. *)
Fixpoint getSupabase_calls (envs : list ImportMetaEnv) (_supabase : option SupabaseClient)
    : list (Exc SupabaseClient) * option SupabaseClient :=
  match envs with
  | [] => ([], _supabase)
  | env :: rest =>
      let '(r, st) := getSupabase env _supabase in
      let '(rs, st') := getSupabase_calls rest st in
      (r :: rs, st')
  end.

End Client.

(** ** Conditional render wrappers *)

Definition SignedIn (children : ReactNode) (ctx : AuthContextType) : ReactNode :=
  let a := useAuth ctx in
  if auth_isLoaded a && auth_isSignedIn a then fragment children else null.

Definition SignedOut (children : ReactNode) (ctx : AuthContextType) : ReactNode :=
  let a := useAuth ctx in
  if auth_isLoaded a && negb (auth_isSignedIn a) then fragment children else null.

(** ** SignIn *)

Record SignInProps := { afterSignInUrl : option string; redirectUrl : option string }.

(** [a || b] for an optional string [a]. *)
Definition or_else (a : option string) (b : string) : string :=
  match a with
  | Some s => if truthy s then s else b
  | None => b
  end.

(** [afterSignInUrl || redirectUrl || '/dashboard'] *)
Definition dest (p : SignInProps) : string :=
  or_else (afterSignInUrl p) (or_else (redirectUrl p) "/dashboard").

Inductive View := view_sign_in | view_forgot.

(** The six state cells of the form. *)
Record SignInState := {
  si_email : string;
  si_password : string;
  si_error : string;
  si_loading : bool;
  si_view : View;
  si_forgotSent : bool;
}.

(** Calls made to the provider's auth client.  What the provider's library
    does in answer to a call is its own: [signInWithOAuth], for one, sends
    the browser to the identity provider, which comes back to
    [redirectTo]. *)
Inductive AuthCall :=
| signInWithPassword (email password : string)
| signInWithOAuth (provider redirectTo : string)
| resetPasswordForEmail (email redirectTo : string).

(** The form together with what its own code has done to the outside: the
    calls it made, and the values its handlers assigned to
    [window.location.href].  Navigation done by the provider's library
    inside a call is not in [sp_href]. *)
Record SignInPage := {
  sp_state : SignInState;
  sp_calls : list AuthCall;
  sp_href : list string;
}.

Definition SignIn_mount : SignInPage :=
  {| sp_state := {| si_email := ""; si_password := ""; si_error := ""; si_loading := false;
                    si_view := view_sign_in; si_forgotSent := false |};
     sp_calls := []; sp_href := [] |}.

(** What happens to the form.  An [async] handler is two events: its part
    before the [await], and its continuation once the provider's promise
    has settled ([err] is the message of the provider's error, if any).
    The client is taken as configured, so that [getSupabase()] returns. *)
Inductive SignInEvent :=
| ChangeEmail (v : string)
| ChangePassword (v : string)
| Submit
| SubmitSettled (err : option string)
| ForgotClicked
| BackClicked
| SubmitForgot
| ForgotSettled (err : option string)
| GoogleClicked.

Definition with_state (f : SignInState → SignInState) (pg : SignInPage) : SignInPage :=
  {| sp_state := f (sp_state pg); sp_calls := sp_calls pg; sp_href := sp_href pg |}.

Definition setEmail (v : string) (s : SignInState) : SignInState :=
  {| si_email := v; si_password := si_password s; si_error := si_error s;
     si_loading := si_loading s; si_view := si_view s; si_forgotSent := si_forgotSent s |}.

Definition setPassword (v : string) (s : SignInState) : SignInState :=
  {| si_email := si_email s; si_password := v; si_error := si_error s;
     si_loading := si_loading s; si_view := si_view s; si_forgotSent := si_forgotSent s |}.

Definition setError (v : string) (s : SignInState) : SignInState :=
  {| si_email := si_email s; si_password := si_password s; si_error := v;
     si_loading := si_loading s; si_view := si_view s; si_forgotSent := si_forgotSent s |}.

Definition setFormLoading (v : bool) (s : SignInState) : SignInState :=
  {| si_email := si_email s; si_password := si_password s; si_error := si_error s;
     si_loading := v; si_view := si_view s; si_forgotSent := si_forgotSent s |}.

Definition setView (v : View) (s : SignInState) : SignInState :=
  {| si_email := si_email s; si_password := si_password s; si_error := si_error s;
     si_loading := si_loading s; si_view := v; si_forgotSent := si_forgotSent s |}.

Definition setForgotSent (v : bool) (s : SignInState) : SignInState :=
  {| si_email := si_email s; si_password := si_password s; si_error := si_error s;
     si_loading := si_loading s; si_view := si_view s; si_forgotSent := v |}.

Definition call (c : AuthCall) (pg : SignInPage) : SignInPage :=
  {| sp_state := sp_state pg; sp_calls := sp_calls pg ++ [c]; sp_href := sp_href pg |}.

Definition navigate (url : string) (pg : SignInPage) : SignInPage :=
  {| sp_state := sp_state pg; sp_calls := sp_calls pg; sp_href := sp_href pg ++ [url] |}.

(** [origin] is [window.location.origin]. *)
Definition SignIn_step (origin : string) (p : SignInProps) (pg : SignInPage) (e : SignInEvent)
    : SignInPage :=
  match e with
  | ChangeEmail v => with_state (setEmail v) pg
  | ChangePassword v => with_state (setPassword v) pg
  | Submit =>
      (* handleSubmit, up to the await *)
      call (signInWithPassword (si_email (sp_state pg)) (si_password (sp_state pg)))
           (with_state (setError "") (with_state (setFormLoading true) pg))
  | SubmitSettled err =>
      (* handleSubmit, after the await *)
      match err with
      | Some msg => with_state (setFormLoading false) (with_state (setError msg) pg)
      | None => navigate (dest p) pg
      end
  | ForgotClicked => with_state (setError "") (with_state (setView view_forgot) pg)
  | BackClicked =>
      with_state (setForgotSent false)
        (with_state (setError "") (with_state (setView view_sign_in) pg))
  | SubmitForgot =>
      (* handleForgot up to the await, through forgotPassword *)
      call (resetPasswordForEmail (si_email (sp_state pg)) (origin +:+ "/reset-password"))
           (with_state (setError "") (with_state (setFormLoading true) pg))
  | ForgotSettled err =>
      (* forgotPassword returns { error: error?.message ?? null }, and
         handleForgot tests that string *)
      match err with
      | Some msg =>
          if truthy msg
          then with_state (setFormLoading false) (with_state (setError msg) pg)
          else with_state (setFormLoading false) (with_state (setForgotSent true) pg)
      | None => with_state (setFormLoading false) (with_state (setForgotSent true) pg)
      end
  | GoogleClicked => call (signInWithOAuth "google" (origin +:+ dest p)) pg
  end.

Definition SignIn_run (origin : string) (p : SignInProps) (tr : list SignInEvent) : SignInPage :=
  fold_left (SignIn_step origin p) tr SignIn_mount.

(** ** SignUp: the metadata sent with a registration *)

(** [s || null] *)
Definition or_null (s : string) : JValue := if truthy s then JStr s else JNull.

(** [Array.prototype.join] on strings. *)
Fixpoint join (sep : string) (l : list string) : string :=
  match l with
  | [] => ""
  | [x] => x
  | x :: rest => x +:+ sep +:+ join sep rest
  end.

(** [[firstName, lastName].filter(Boolean).join(' ')] *)
Definition signUp_fullName (firstName lastName : string) : string :=
  join " " (List.filter truthy [firstName; lastName]).

(** The [options.data] object of [supabase.auth.signUp], which the
    provider keeps as the new user's [user_metadata]. *)
Definition signUp_data (firstName lastName : string) : gmap string JValue :=
  <["first_name" := or_null firstName]>
    (<["last_name" := or_null lastName]>
       (<["full_name" := or_null (signUp_fullName firstName lastName)]> ∅)).

(** ** Notions used to state properties *)

(** A sign-in call that settled without an error. *)
Definition is_sign_in_success (e : SignInEvent) : bool :=
  match e with
  | SubmitSettled None => true
  | _ => false
  end.

(** A click on the Google button. *)
Definition is_google_click (e : SignInEvent) : bool :=
  match e with
  | GoogleClicked => true
  | _ => false
  end.

(** A call that starts an OAuth flow. *)
Definition is_oauth (c : AuthCall) : bool :=
  match c with
  | signInWithOAuth _ _ => true
  | _ => false
  end.

(** Where a call asks the provider to send the browser back to. *)
Definition redirect_of (c : AuthCall) : option string :=
  match c with
  | signInWithPassword _ _ => None
  | signInWithOAuth _ r => Some r
  | resetPasswordForEmail _ r => Some r
  end.

(** An environment that lacks the URL or the key, or has one empty. *)
Definition incomplete (env : ImportMetaEnv) : Prop :=
  VITE_SUPABASE_URL env = None ∨ VITE_SUPABASE_URL env = Some "" ∨
  VITE_SUPABASE_ANON_KEY env = None ∨ VITE_SUPABASE_ANON_KEY env = Some "".

End Components.

(* ===================================================================== *)
(** * Scenario data *)
(* ===================================================================== *)

(** Concrete identities, tables and environments used to run the model. *)
Module Scenario.
Import Config SupabaseAuth.

Definition mkUser (uid : string) (meta app_meta : option (gmap string JValue)) : User :=
  {| id := uid; email := Some (uid +:+ "@example.com");
     user_metadata := meta; app_metadata := app_meta |}.

Definition u1 : User := mkUser "u1" None None.
Definition u2 : User := mkUser "u2" (Some {[ "avatar_url" := JNull ]}) (Some ∅).
Definition u3 : User :=
  mkUser "u3" (Some {[ "avatar_url" := JStr "https://cdn.example.com/u3.png" ]}) None.
Definition admin : User := mkUser "root" None (Some {[ "role" := JStr "super_admin" ]}).

Definition session_of (u : User) : Session := {| user := u; access_token := "jwt" |}.

(** The context while [u] is signed in and the provider has answered. *)
Definition signed_in (u : User) : AuthContextType :=
  value {| session := Some (session_of u); isLoaded := true |}.

Definition on_event : Env := {| hostname := Some "myrestoevent.com"; VITE_APP_ID := None |}.

Definition subscription_row (uid plan_ status_ : string) : Authorization.Subscription :=
  {| Authorization.sub_id := "sub_" +:+ uid; Authorization.sub_user_id := uid;
     Authorization.stripe_subscription_id := None; Authorization.stripe_customer_id := None;
     Authorization.plan := plan_; Authorization.status := status_;
     Authorization.current_period_start := None; Authorization.current_period_end := None;
     Authorization.cancel_at_period_end := false;
     Authorization.created_at := "2024-01-01"; Authorization.updated_at := "2024-01-01" |}.

(** A subscription hook whose cell holds [sub]. *)
Definition holding (sub : option Authorization.Subscription)
    : Hook.World (option string) Authorization.SubQuery (option Authorization.Subscription) :=
  Hook.setLoading false (Hook.setCell sub (Hook.mount None)).

Definition role_row (uid app_ role_ : string) : Authorization.UserRole :=
  {| Authorization.ur_id := uid +:+ ":" +:+ app_ +:+ ":" +:+ role_;
     Authorization.ur_user_id := uid; Authorization.ur_app := app_;
     Authorization.ur_role := role_; Authorization.granted_at := "2024-01-01";
     Authorization.granted_by := None |}.

(** [u1] is an editor of the event application; nobody else holds a role. *)
Definition user_roles : list Authorization.UserRole := [role_row "u1" "event" "editor"].

(** A [createClient] for the examples: it takes http and https URLs and
    refuses everything else. *)
Definition createClient (url key : string) : Exc Components.SupabaseClient :=
  if String.prefix "http://" url || String.prefix "https://" url
  then inr {| Components.supabaseUrl := url; Components.supabaseKey := key |}
  else throw "Invalid supabaseUrl: Must be a valid HTTP or HTTPS URL.".

End Scenario.


(* ===================================================================== *)
(** * Properties of lib/config.ts *)
(* ===================================================================== *)

Section ConfigFacts.
Import Config.

Lemma includes_In (l : list string) (x : string) : includes l x = true ↔ In x l.
Proof.
  unfold includes. rewrite existsb_exists. split.
  - intros (y & Hy & Heq). apply String.eqb_eq in Heq. by subst.
  - intros Hx. exists x. split; [done | apply String.eqb_refl].
Qed.

Lemma valid_app_id_truthy (v : string) : In v valid_app_ids → truthy v = true.
Proof.
  unfold valid_app_ids. simpl.
  intros H. repeat (destruct H as [<- | H]; [reflexivity |]). destruct H.
Qed.

Lemma APP_CONFIG_apps_valid (h : string) (entry : AppInfo) :
  APP_CONFIG !! h = Some entry → In (app entry) valid_app_ids.
Proof.
  intros H.
  assert (Hall : map_Forall (λ _ i, isValidAppId (app i) = true) APP_CONFIG).
  { apply map_Forall_to_list. vm_compute. repeat constructor. }
  apply includes_In. exact (Hall h entry H).
Qed.

(** The names answered by the prototype are not keys of the table. *)
Lemma Object_prototype_keys_not_own (h : string) :
  In h Object_prototype_keys → APP_CONFIG !! h = None.
Proof.
  unfold Object_prototype_keys. simpl.
  intros H. repeat (destruct H as [<- | H]; [vm_compute; reflexivity |]). destruct H.
Qed.

Lemma APP_CONFIG_get_Own (h : string) (entry : AppInfo) :
  APP_CONFIG_get h = Own entry ↔ APP_CONFIG !! h = Some entry.
Proof.
  unfold APP_CONFIG_get. destruct (APP_CONFIG !! h) as [i|].
  - split; congruence.
  - destruct (includes Object_prototype_keys h); split; congruence.
Qed.

Lemma APP_CONFIG_get_Inherited (h : string) :
  APP_CONFIG_get h = Inherited ↔ In h Object_prototype_keys.
Proof.
  unfold APP_CONFIG_get. split.
  - destruct (APP_CONFIG !! h) as [i|]; [done |].
    destruct (includes Object_prototype_keys h) eqn:Hinc; [| done].
    intros _. by apply includes_In.
  - intros Hin. rewrite (Object_prototype_keys_not_own h Hin).
    by rewrite (proj2 (includes_In _ _) Hin).
Qed.

Lemma APP_CONFIG_get_Missing (h : string) :
  APP_CONFIG_get h = Missing ↔ APP_CONFIG !! h = None ∧ ¬ In h Object_prototype_keys.
Proof.
  unfold APP_CONFIG_get. destruct (APP_CONFIG !! h) as [i|].
  - split; [done | by intros [? _]].
  - destruct (includes Object_prototype_keys h) eqn:Hinc.
    + split; [done |]. intros [_ Hn]. exfalso. apply Hn. by apply includes_In.
    + split; [| done]. intros _. split; [done |].
      intros Hin%includes_In. congruence.
Qed.

Lemma getCurrentApp_own (e : Env) (h : string) (entry : AppInfo) :
  hostname e = Some h → APP_CONFIG !! h = Some entry →
  getCurrentApp e = Some (app entry).
Proof.
  intros Hh Hentry. unfold getCurrentApp. rewrite Hh.
  by rewrite (proj2 (APP_CONFIG_get_Own h entry) Hentry).
Qed.

Lemma getCurrentApp_valid (e : Env) (a : AppId) :
  getCurrentApp e = Some a → In a valid_app_ids.
Proof.
  assert (Henv : match VITE_APP_ID e with
                 | Some v => if truthy v && isValidAppId v then Some v else None
                 | None => None
                 end = Some a → In a valid_app_ids).
  { destruct (VITE_APP_ID e) as [v|]; [| done].
    destruct (truthy v && isValidAppId v) eqn:Hok; [| done].
    intros [= <-]. apply andb_prop in Hok as [_ Hvalid]. by apply includes_In. }
  unfold getCurrentApp.
  destruct (hostname e) as [h|]; [| exact Henv].
  destruct (APP_CONFIG_get h) as [entry| |] eqn:Hget; [| done | exact Henv].
  intros [= <-]. apply APP_CONFIG_get_Own in Hget. by eapply APP_CONFIG_apps_valid.
Qed.

(** C9.  The hostname [constructor] is not a key of [APP_CONFIG], and
    [hub] is a valid application id, yet with that hostname and
    [VITE_APP_ID = hub] the result is not [hub]: [APP_CONFIG[hostname]]
    finds the member of that name on the prototype, which is truthy, and
    the function returns its [app], which is undefined, without reading
    the environment: the result is the same whatever [VITE_APP_ID] is.
    On a hostname that names nothing at all, such as [localhost], the
    same environment gives [hub]. *)
Theorem getCurrentApp_inherited_hostname :
  APP_CONFIG !! "constructor" = None ∧
  isValidAppId "hub" = true ∧
  APP_CONFIG_get "constructor" = Inherited ∧
  getCurrentApp {| hostname := Some "constructor"; VITE_APP_ID := Some "hub" |} = None ∧
  (∀ v, getCurrentApp {| hostname := Some "constructor"; VITE_APP_ID := v |} = None) ∧
  getCurrentApp {| hostname := Some "localhost"; VITE_APP_ID := Some "hub" |} = Some "hub".
Proof.
  split; [| split; [| split; [| split; [| split]]]]; vm_compute; reflexivity.
Qed.

(** X20.  The resolution of [getCurrentApp], case by case.  A hostname
    that is a key of [APP_CONFIG] decides, whatever the environment says.
    A hostname that is one of the property names of [Object.prototype]
    gives no application id, whatever the environment says.  For any other
    hostname, and when there is no [window], [VITE_APP_ID] is returned
    when it is one of the eleven valid application ids, and the result is
    [null] otherwise.  Hence the result is always a valid application id
    or none. *)
Theorem getCurrentApp_resolution (e : Env) :
  (∀ h entry, hostname e = Some h → APP_CONFIG !! h = Some entry →
     getCurrentApp e = Some (app entry)) ∧
  (∀ h, hostname e = Some h → In h Object_prototype_keys → getCurrentApp e = None) ∧
  ((∀ h, hostname e = Some h → APP_CONFIG !! h = None ∧ ¬ In h Object_prototype_keys) →
     (∀ v, VITE_APP_ID e = Some v → In v valid_app_ids → getCurrentApp e = Some v) ∧
     ((∀ v, VITE_APP_ID e = Some v → ¬ In v valid_app_ids) → getCurrentApp e = None)) ∧
  (∀ a, getCurrentApp e = Some a → In a valid_app_ids) ∧
  length valid_app_ids = 11 ∧ NoDup valid_app_ids ∧
  length Object_prototype_keys = 12.
Proof.
  split; [| split; [| split; [| split; [| split; [| split]]]]].
  - intros h entry. apply getCurrentApp_own.
  - intros h Hh Hin. unfold getCurrentApp. rewrite Hh.
    by rewrite (proj2 (APP_CONFIG_get_Inherited h) Hin).
  - intros Hmiss.
    assert (Hfall : getCurrentApp e =
              match VITE_APP_ID e with
              | Some v => if truthy v && isValidAppId v then Some v else None
              | None => None
              end).
    { unfold getCurrentApp. destruct (hostname e) as [h|]; [| done].
      by rewrite (proj2 (APP_CONFIG_get_Missing h) (Hmiss h eq_refl)). }
    rewrite Hfall. split.
    + intros v Hv Hin. rewrite Hv. unfold isValidAppId.
      by rewrite (valid_app_id_truthy v Hin), (proj2 (includes_In _ _) Hin).
    + intros Hbad. destruct (VITE_APP_ID e) as [v|] eqn:Hv; [| done].
      destruct (truthy v && isValidAppId v) eqn:Hok; [| done].
      apply andb_prop in Hok as [_ Hvalid].
      exfalso. apply (Hbad v eq_refl). by apply includes_In.
  - apply getCurrentApp_valid.
  - reflexivity.
  - apply NoDup_ListNoDup. vm_compute.
    repeat (constructor; [by (intros H; repeat (destruct H as [H | H]; [discriminate H |]); destruct H) |]).
    constructor.
  - reflexivity.
Qed.

(** The resolution at work: a known host beats the environment, an unknown
    host falls back to a valid id, an invalid id is dropped, and a host
    named after a member of the prototype hides the environment. *)
Lemma getCurrentApp_resolution_witness :
  getCurrentApp {| hostname := Some "www.myrestoclub.com"; VITE_APP_ID := Some "hub" |} = Some "club" ∧
  getCurrentApp {| hostname := Some "localhost"; VITE_APP_ID := Some "hub" |} = Some "hub" ∧
  getCurrentApp {| hostname := Some "localhost"; VITE_APP_ID := Some "admin" |} = None ∧
  getCurrentApp {| hostname := Some "tostring"; VITE_APP_ID := Some "hub" |} = Some "hub" ∧
  getCurrentApp {| hostname := Some "valueOf"; VITE_APP_ID := Some "hub" |} = None.
Proof.
  assert (Hlocal : ∀ env, ∀ h, hostname {| hostname := Some "localhost"; VITE_APP_ID := env |} = Some h →
            APP_CONFIG !! h = None ∧ ¬ In h Object_prototype_keys).
  { intros env h [= <-]. split; [vm_compute; reflexivity |].
    simpl. intros H. repeat (destruct H as [H | H]; [discriminate H |]). destruct H. }
  split; [| split; [| split; [| split]]].
  - apply (proj1 (getCurrentApp_resolution _) "www.myrestoclub.com" {| app := "club"; name := "MyResto Club" |});
      vm_compute; reflexivity.
  - apply (proj1 (proj1 (proj2 (proj2 (getCurrentApp_resolution _))) (Hlocal _)));
      [reflexivity | simpl; tauto].
  - apply (proj2 (proj1 (proj2 (proj2 (getCurrentApp_resolution _))) (Hlocal _))).
    intros v [= <-]. simpl. intros H.
    repeat (destruct H as [H | H]; [discriminate H |]). destruct H.
  - assert (Hlower : ∀ h, hostname {| hostname := Some "tostring"; VITE_APP_ID := Some "hub" |} = Some h →
              APP_CONFIG !! h = None ∧ ¬ In h Object_prototype_keys).
    { intros h [= <-]. split; [vm_compute; reflexivity |].
      simpl. intros H. repeat (destruct H as [H | H]; [discriminate H |]). destruct H. }
    apply (proj1 (proj1 (proj2 (proj2 (getCurrentApp_resolution _))) Hlower));
      [reflexivity | simpl; tauto].
  - apply (proj1 (proj2 (getCurrentApp_resolution _)) "valueOf"); [reflexivity | simpl; tauto].
Defined.

End ConfigFacts.

(* ===================================================================== *)
(** * Properties of lib/supabase-auth.tsx *)
(* ===================================================================== *)

Section SupabaseAuthFacts.
Import SupabaseAuth.

Lemma coalesce_not_null (v : option JValue) (d : JValue) : d ≠ JNull → coalesce v d ≠ JNull.
Proof. intros Hd. destruct v as [[]|]; simpl; congruence. Qed.

Lemma coalesce_nullish (v : option JValue) (d : JValue) : nullish v = true → coalesce v d = d.
Proof. destruct v as [[]|]; simpl; congruence. Qed.

Lemma coalesce_value (v : option JValue) (d x : JValue) :
  v = Some x → x ≠ JNull → coalesce v d = x.
Proof. intros -> Hx. destruct x; simpl; congruence. Qed.

Lemma generated_avatar_inj (i j : string) : generated_avatar i = generated_avatar j → i = j.
Proof. unfold generated_avatar. intros H. by simplify_eq/=. Qed.

(** C10.  For a signed-in user the projected user's [imageUrl] is never
    null: it is the metadata's [avatar_url] when that is present and not
    null, and otherwise the generated avatar URL, which is a function of
    the user id alone (distinct ids give distinct URLs). *)
Theorem useUser_imageUrl_never_null (s : Session) (loaded : bool) :
  ∃ cu, uu_user (useUser (value {| session := Some s; isLoaded := loaded |})) = Some cu ∧
        imageUrl cu ≠ JNull ∧
        (nullish (avatar_url (user s)) = true →
           imageUrl cu = JStr (generated_avatar (id (user s)))) ∧
        (∀ v, avatar_url (user s) = Some v → v ≠ JNull → imageUrl cu = v) ∧
        (∀ i j, generated_avatar i = generated_avatar j → i = j).
Proof.
  unfold useUser, value, avatar_url. cbn [ctx_user session fmap option_fmap option_map].
  eexists. split; [reflexivity |]. cbn [imageUrl].
  split; [| split; [| split]].
  - by apply coalesce_not_null.
  - apply coalesce_nullish.
  - intros v Hv Hnn. by apply coalesce_value.
  - apply generated_avatar_inj.
Qed.

(** Users without an [avatar_url], with a null one and with a real one. *)
Lemma useUser_imageUrl_never_null_witness :
  imageUrl <$> uu_user (useUser (Scenario.signed_in Scenario.u1))
    = Some (JStr "https://api.dicebear.com/7.x/avataaars/svg?seed=u1") ∧
  imageUrl <$> uu_user (useUser (Scenario.signed_in Scenario.u2))
    = Some (JStr "https://api.dicebear.com/7.x/avataaars/svg?seed=u2") ∧
  imageUrl <$> uu_user (useUser (Scenario.signed_in Scenario.u3))
    = Some (JStr "https://cdn.example.com/u3.png").
Proof.
  unfold Scenario.signed_in.
  split; [| split].
  - destruct (useUser_imageUrl_never_null (Scenario.session_of Scenario.u1) true)
      as (cu & -> & _ & Hgen & _).
    cbn [fmap option_fmap option_map]. f_equal. apply Hgen. vm_compute. reflexivity.
  - destruct (useUser_imageUrl_never_null (Scenario.session_of Scenario.u2) true)
      as (cu & -> & _ & Hgen & _).
    cbn [fmap option_fmap option_map]. f_equal. apply Hgen. vm_compute. reflexivity.
  - destruct (useUser_imageUrl_never_null (Scenario.session_of Scenario.u3) true)
      as (cu & -> & _ & _ & Hkeep & _).
    cbn [fmap option_fmap option_map]. f_equal. apply Hkeep; [vm_compute; reflexivity | discriminate].
Defined.

(** ** Sign-out *)

Lemma run_app (tr1 tr2 : list ProviderEvent) (st : ProviderState) :
  run (tr1 ++ tr2) st = run tr2 (run tr1 st).
Proof. unfold run. apply fold_left_app. Qed.

Lemma session_step (st : ProviderState) (e : ProviderEvent) :
  session (step st e) = default (session st) (delivered e).
Proof. by destruct e. Qed.

Lemma session_run (tr : list ProviderEvent) (st : ProviderState) :
  session (run tr st) = last_delivered tr (session st).
Proof.
  revert st. induction tr as [| e tr IH]; intros st; [done |].
  unfold run, last_delivered in *. cbn [fold_left].
  rewrite IH. by rewrite session_step.
Qed.

Lemma last_delivered_quiet (post : list ProviderEvent) (s0 : option Session) :
  Forall (λ e, delivered e = None) post → last_delivered post s0 = s0.
Proof.
  induction 1 as [| e post He _ IH]; [done |].
  unfold last_delivered in *. cbn [fold_left]. by rewrite He.
Qed.

(** C3, counterexample.  The user is signed in, [signOut()] is called and
    the provider's call settles with an error, without a session change:
    [signOut()] has resolved and [isSignedIn] still reads [true]. *)
Lemma signOut_resolved_still_signed_in :
  ctx_isSignedIn
    (value (run [SessionFetched (Some (Scenario.session_of Scenario.u1));
                 SignOutResolved (Some "Failed to fetch")] initial)) = true.
Proof. vm_compute. reflexivity. Qed.

(** C3, as the code has it.  [signOut()] awaits the provider and touches no
    state: [isSignedIn] is, at every point, whether the last session the
    provider delivered is non-null, and the resolution of [signOut()]
    leaves it as it was.  When the provider calls the listener with a null
    session before the sign-out call resolves, every read after the
    resolution is [false] for as long as no new session is delivered. *)
Theorem signOut_follows_provider
    (tr post : list ProviderEvent) (err : option string) (st : ProviderState) :
  Forall (λ e, delivered e = None) post →
  ctx_isSignedIn (value (run (tr ++ [AuthStateChange None; SignOutResolved err] ++ post) st)) = false ∧
  ctx_isSignedIn (value (run (tr ++ [SignOutResolved err]) st))
    = ctx_isSignedIn (value (run tr st)) ∧
  ctx_isSignedIn (value (run tr st))
    = bool_decide (is_Some (last_delivered tr (session st))).
Proof.
  intros Hquiet. unfold value. cbn [ctx_isSignedIn].
  split; [| split].
  - rewrite !run_app, (session_run post), last_delivered_quiet by done.
    apply bool_decide_eq_false. rewrite <- not_eq_None_Some. intros H. by apply H.
  - by rewrite run_app.
  - by rewrite session_run.
Qed.

Lemma signOut_follows_provider_witness :
  ctx_isSignedIn
    (value (run ([SessionFetched (Some (Scenario.session_of Scenario.u1))]
                 ++ [AuthStateChange None; SignOutResolved None] ++ [SignOutResolved None])
                initial)) = false.
Proof.
  apply (signOut_follows_provider _ [SignOutResolved None] None initial).
  repeat constructor.
Defined.

End SupabaseAuthFacts.

(* ===================================================================== *)
(** * Properties of a hook instance *)
(* ===================================================================== *)

Section HookFacts.
Import Hook.
Context {D Q V : Type} `{!EqDecision D}.
Implicit Types (w : World D Q V) (c : nat).

Lemma wf_mount (init : V) : wf (mount (D:=D) (Q:=Q) init).
Proof. split; simpl; intros *; (set_solver || by rewrite ?lookup_empty). Qed.

(** An effect run with new dependencies cancels whatever was in flight. *)
Lemma useEffect_same body (d : D) w :
  last_deps w = Some d → useEffect body d w = w.
Proof. intros H. unfold useEffect. by rewrite decide_True. Qed.

(** What [cancel] of the held cleanup leaves behind: every promise in
    flight is cancelled. *)
Lemma cleanup_cancels_all w :
  wf w →
  let w1 := match cleanup w with Some c => cancel c w | None => w end in
  (∀ c, c ∈ cancelled w1 → c < next_closure w) ∧
  (∀ c q, inflight w !! c = Some q → c ∈ cancelled w1) ∧
  inflight w1 = inflight w ∧ next_closure w1 = next_closure w ∧
  cell w1 = cell w ∧ loading w1 = loading w ∧ console w1 = console w ∧
  network w1 = network w.
Proof.
  intros [Hc Hi Hcl Hlive]. simpl.
  destruct (cleanup w) as [c0|] eqn:Hc0; simpl.
  - repeat split; try done.
    + intros c [->%elem_of_singleton | Hin]%elem_of_union; [by apply Hcl | by apply Hc].
    + intros c q Hq. destruct (decide (c ∈ cancelled w)) as [Hin | Hnin]; [set_solver |].
      specialize (Hlive c q Hq Hnin). simplify_eq. set_solver.
  - repeat split; try done.
    intros c q Hq. destruct (decide (c ∈ cancelled w)) as [Hin | Hnin]; [done |].
    by specialize (Hlive c q Hq Hnin).
Qed.

Lemma wf_useEffect body (d : D) w :
  (∀ w0, effect_shape w0 (body w0)) → wf w → wf (useEffect body d w).
Proof.
  intros Hshape Hwf. unfold useEffect.
  destruct (decide (last_deps w = Some d)) as [_ | _]; [done |].
  destruct (cleanup_cancels_all w Hwf) as (Hlt & Hall & Hin & Hnext & _).
  set (w1 := match cleanup w with Some c => cancel c w | None => w end) in *.
  specialize (Hshape w1). destruct (body w1) as [ret w2].
  inversion Hshape as [w' Hc' Hi' Hn' | q w' Hc' Hi' Hn']; subst; split; simpl.
  - intros c. rewrite Hc', Hn', Hnext. apply Hlt.
  - intros c q. rewrite Hi', Hin, Hn', Hnext. by destruct Hwf as [_ Hi _ _]; apply Hi.
  - done.
  - intros c q. rewrite Hi', Hin, Hc'. intros Hq Hnot. destruct Hnot. by eapply Hall.
  - intros c. rewrite Hc', Hn', Hnext. intros Hcin. specialize (Hlt c Hcin). lia.
  - intros c q0. rewrite Hi', Hin, Hn', Hnext.
    intros [[<- _] | [_ Hq]]%lookup_insert_Some; [lia |].
    destruct Hwf as [_ Hi _ _]. specialize (Hi c q0 Hq). lia.
  - intros c [= <-]. lia.
  - intros c q0. rewrite Hi', Hin, Hc'.
    intros [[<- _] | [_ Hq]]%lookup_insert_Some Hnot; [done |].
    destruct Hnot. by eapply Hall.
Qed.

(** An effect run with new dependencies supersedes every promise that was
    in flight: their closures are cancelled afterwards. *)
Lemma useEffect_supersedes body (d : D) w :
  (∀ w0, effect_shape w0 (body w0)) → wf w → last_deps w ≠ Some d →
  ∀ c q, inflight w !! c = Some q → c ∈ cancelled (useEffect body d w).
Proof.
  intros Hshape Hwf Hd c q Hq. unfold useEffect.
  destruct (decide (last_deps w = Some d)) as [? | _]; [done |].
  destruct (cleanup_cancels_all w Hwf) as (_ & Hall & _).
  set (w1 := match cleanup w with Some c => cancel c w | None => w end) in *.
  specialize (Hshape w1). destruct (body w1) as [ret w2].
  inversion Hshape as [w' Hc' _ _ | q' w' Hc' _ _]; subst; simpl;
    rewrite Hc'; by eapply Hall.
Qed.

(** A [.then] callback writes cells and the console, nothing else. *)
Lemma wf_settle {R} (k : nat → R → World D Q V → World D Q V) c (r : R) w :
  (∀ c r w0, cancelled (k c r w0) = cancelled w0 ∧ inflight (k c r w0) = inflight w0 ∧
             next_closure (k c r w0) = next_closure w0 ∧ cleanup (k c r w0) = cleanup w0) →
  wf w → wf (settle k c r w).
Proof.
  intros Hk [Hc Hi Hcl Hlive]. unfold settle.
  destruct (inflight w !! c) as [q|] eqn:Hq; [| by split].
  match goal with |- wf (k c r ?w0) => destruct (Hk c r w0) as (E1 & E2 & E3 & E4) end.
  split; rewrite ?E1, ?E2, ?E3, ?E4; simpl.
  - done.
  - intros c' q' [_ Hq']%lookup_delete_Some. by eapply Hi.
  - done.
  - intros c' q' [_ Hq']%lookup_delete_Some. by eapply Hlive.
Qed.

Lemma after_cleanup_lt w c : wf w → c ∈ after_cleanup w → c < next_closure w.
Proof.
  intros [Hc _ Hcl _]. unfold after_cleanup.
  destruct (cleanup w) as [c0|] eqn:Hc0; [| by apply Hc].
  intros [->%elem_of_singleton | Hin]%elem_of_union; [by apply Hcl | by apply Hc].
Qed.

Lemma useEffect_fetch body (d : D) (q : Q) w :
  fetch_body body q → last_deps w ≠ Some d →
  useEffect body d w =
    mkWorld (cell w) true (Some d) (Some (next_closure w)) (after_cleanup w)
            (<[next_closure w := q]> (inflight w)) (S (next_closure w))
            (console w) (network w ++ [q]).
Proof.
  intros Hbody Hd. unfold useEffect, after_cleanup.
  rewrite decide_False by done. rewrite Hbody.
  by destruct (cleanup w).
Qed.

Lemma settle_spec {R} (k : nat → R → World D Q V → World D Q V) val lg c (r : R) w :
  handler_spec k val lg →
  settle k c r w =
    match inflight w !! c with
    | None => w
    | Some _ =>
        if bool_decide (c ∈ cancelled w)
        then mkWorld (cell w) (loading w) (last_deps w) (cleanup w) (cancelled w)
                     (delete c (inflight w)) (next_closure w) (console w) (network w)
        else mkWorld (val r) false (last_deps w) (cleanup w) (cancelled w)
                     (delete c (inflight w)) (next_closure w) (console w ++ lg r) (network w)
    end.
Proof.
  intros Hk. unfold settle. destruct (inflight w !! c); [| done].
  rewrite Hk. unfold is_cancelled. simpl. by destruct (bool_decide _).
Qed.

(** The result of a cancelled closure is dropped: its [.then] callback
    leaves every cell and the console as they were. *)
Lemma settle_cancelled {R} (k : nat → R → World D Q V → World D Q V) val lg c (r : R) w :
  handler_spec k val lg → c ∈ cancelled w →
  observable (settle k c r w) = observable w.
Proof.
  intros Hk Hc. rewrite (settle_spec k val lg) by done.
  destruct (inflight w !! c); [| done].
  by rewrite bool_decide_eq_true_2.
Qed.

(** Request fencing.  Query [A] is sent for dependencies [dX]; before it
    settles the dependencies change to [dY] and query [B] is sent.  In
    whichever order the two promises settle, the cells hold [B]'s result
    and only [B]'s result was logged. *)
Lemma last_request_wins {R} (k : nat → R → World D Q V → World D Q V) val lg
    bodyX bodyY (dX dY : D) (qA qB : Q) (rA rB : R) w :
  handler_spec k val lg → fetch_body bodyX qA → fetch_body bodyY qB →
  wf w → last_deps w ≠ Some dX → dX ≠ dY →
  let A := next_closure w in
  let B := S A in
  let w2 := useEffect bodyY dY (useEffect bodyX dX w) in
  network w2 = network w ++ [qA; qB] ∧
  observable w2 = (cell w, true, console w) ∧
  observable (settle k A rA w2) = (cell w, true, console w) ∧
  observable (settle k B rB w2) = (val rB, false, console w ++ lg rB) ∧
  observable (settle k A rA (settle k B rB w2)) = (val rB, false, console w ++ lg rB) ∧
  observable (settle k B rB (settle k A rA w2)) = (val rB, false, console w ++ lg rB).
Proof.
  intros Hk HX HY Hwf Hd Hne. simpl.
  rewrite (useEffect_fetch bodyX dX qA w HX Hd).
  rewrite (useEffect_fetch bodyY dY qB _ HY) by (simpl; congruence).
  set (n := next_closure w). set (C := after_cleanup w).
  unfold after_cleanup. simpl.
  assert (HnC : S n ∉ {[n]} ∪ C).
  { intros [Hin%elem_of_singleton | Hin]%elem_of_union; [lia |].
    apply (after_cleanup_lt w _ Hwf) in Hin. unfold n in Hin. lia. }
  assert (HAC : n ∈ {[n]} ∪ C) by set_solver.
  split; [by rewrite <- app_assoc |]. split; [done |].
  rewrite !(settle_spec k val lg) by done. simpl.
  rewrite lookup_insert_eq.
  rewrite (lookup_insert_ne _ (S n) n) by lia. rewrite lookup_insert_eq.
  rewrite (bool_decide_eq_true_2 _ HAC), (bool_decide_eq_false_2 _ HnC). simpl.
  rewrite (lookup_delete_ne _ (S n) n) by lia.
  rewrite (lookup_insert_ne _ (S n) n) by lia. rewrite lookup_insert_eq.
  rewrite (lookup_delete_ne _ n (S n)) by lia. rewrite lookup_insert_eq.
  by rewrite (bool_decide_eq_true_2 _ HAC), (bool_decide_eq_false_2 _ HnC).
Qed.

(** A query sent and answered while its closure is the current one: the
    callback stores the result. *)
Lemma fetch_then_settle {R} (k : nat → R → World D Q V → World D Q V) val lg
    body (d : D) (q : Q) (r : R) w :
  handler_spec k val lg → fetch_body body q → wf w → last_deps w ≠ Some d →
  observable (settle k (next_closure w) r (useEffect body d w))
    = (val r, false, console w ++ lg r) ∧
  last_deps (settle k (next_closure w) r (useEffect body d w)) = Some d.
Proof.
  intros Hk Hbody Hwf Hd.
  rewrite (useEffect_fetch body d q w Hbody Hd).
  rewrite (settle_spec k val lg) by done. simpl.
  rewrite lookup_insert_eq.
  rewrite bool_decide_eq_false_2; [done |].
  intros Hin%(after_cleanup_lt w _ Hwf). lia.
Qed.

Lemma inflight_after_cleanup w c (q : Q) :
  wf w → inflight w !! c = Some q → c ∈ after_cleanup w.
Proof.
  intros [_ _ _ Hlive] Hq. unfold after_cleanup.
  destruct (decide (c ∈ cancelled w)) as [Hin | Hnin].
  - destruct (cleanup w); set_solver.
  - rewrite (Hlive c q Hq Hnin). set_solver.
Qed.

(** After an effect run, the dependency array is the one it was given. *)
Lemma useEffect_last_deps body (d : D) w : last_deps (useEffect body d w) = Some d.
Proof.
  unfold useEffect. destruct (decide (last_deps w = Some d)) as [H | _]; [done |].
  by destruct (body _).
Qed.

Lemma useEffect_idempotent body body' (d : D) w :
  useEffect body' d (useEffect body d w) = useEffect body d w.
Proof. apply useEffect_same, useEffect_last_deps. Qed.

(** Promises whose closures are all cancelled settle without a trace. *)
Lemma settle_all_cancelled {R} (k : nat → R → World D Q V → World D Q V) val lg c (r : R) w :
  handler_spec k val lg →
  (∀ c q, inflight w !! c = Some q → c ∈ cancelled w) →
  observable (settle k c r w) = observable w ∧
  network (settle k c r w) = network w ∧
  last_deps (settle k c r w) = last_deps w ∧
  (∀ c' q, inflight (settle k c r w) !! c' = Some q → c' ∈ cancelled (settle k c r w)).
Proof.
  intros Hk Hall. rewrite (settle_spec k val lg) by done.
  destruct (inflight w !! c) as [q|] eqn:Hq; [| by repeat split].
  rewrite bool_decide_eq_true_2 by (by eapply Hall).
  repeat split; try done. simpl.
  intros c' q' [_ Hq']%lookup_delete_Some. by eapply Hall.
Qed.

End HookFacts.

(* ===================================================================== *)
(** * Properties of lib/authorization.tsx *)
(* ===================================================================== *)

Section AuthorizationFacts.
Import Config SupabaseAuth Hook Authorization.

Lemma fold_left_invariant {A E : Type} (P : A → Prop) (f : A → E → A) (l : list E) (a : A) :
  P a → (∀ x e, P x → P (f x e)) → P (fold_left f l a).
Proof.
  intros Ha Hstep. revert a Ha.
  induction l as [| e l IH]; intros a Ha; [done |].
  simpl. apply IH. by apply Hstep.
Qed.

(** ** Shapes of the effect bodies and of the callbacks *)

Lemma useAppRole_effect_shape (userId app : option string) (sa : bool) (w : RoleWorld) :
  effect_shape w (useAppRole_effect userId app sa w).
Proof.
  unfold useAppRole_effect.
  destruct sa; [by constructor |].
  destruct userId as [u|]; [| by constructor].
  destruct app as [a|]; [| by constructor].
  destruct (truthy u && truthy a); [| by constructor].
  simpl. by econstructor.
Qed.

Lemma useSubscription_effect_shape (userId : option string) (w : SubWorld) :
  effect_shape w (useSubscription_effect userId w).
Proof.
  unfold useSubscription_effect.
  destruct userId as [u|]; [| by constructor].
  destruct (truthy u); [| by constructor].
  simpl. by econstructor.
Qed.

Lemma useAppRole_then_async (c : nat) (r : Response (list RoleRow)) (w : RoleWorld) :
  cancelled (useAppRole_then c r w) = cancelled w ∧
  inflight (useAppRole_then c r w) = inflight w ∧
  next_closure (useAppRole_then c r w) = next_closure w ∧
  cleanup (useAppRole_then c r w) = cleanup w.
Proof.
  unfold useAppRole_then.
  destruct (is_cancelled c w); [done |]. by destruct (error r).
Qed.

Lemma useSubscription_then_async (c : nat) (r : Response Subscription) (w : SubWorld) :
  cancelled (useSubscription_then c r w) = cancelled w ∧
  inflight (useSubscription_then c r w) = inflight w ∧
  next_closure (useSubscription_then c r w) = next_closure w ∧
  cleanup (useSubscription_then c r w) = cleanup w.
Proof.
  unfold useSubscription_then.
  destruct (is_cancelled c w); [done |]. by destruct (error r).
Qed.

Lemma role_step_wf (w : RoleWorld) (e : RoleEvent) : wf w → wf (role_step w e).
Proof.
  intros Hwf. destruct e as [a ctx env | c r]; simpl.
  - apply wf_useEffect; [| done]. intros w0. apply useAppRole_effect_shape.
  - apply wf_settle; [| done]. intros. apply useAppRole_then_async.
Qed.

Lemma sub_step_wf (w : SubWorld) (e : SubEvent) : wf w → wf (sub_step w e).
Proof.
  intros Hwf. destruct e as [ctx | c r]; simpl.
  - apply wf_useEffect; [| done]. intros w0. apply useSubscription_effect_shape.
  - apply wf_settle; [| done]. intros. apply useSubscription_then_async.
Qed.

Lemma role_run_wf (tr : list RoleEvent) : wf (role_run tr).
Proof.
  unfold role_run. apply (fold_left_invariant wf); [apply wf_mount |].
  intros w e Hw. by apply role_step_wf.
Qed.

Lemma sub_run_wf (tr : list SubEvent) : wf (sub_run tr).
Proof.
  unfold sub_run. apply (fold_left_invariant wf); [apply wf_mount |].
  intros w e Hw. by apply sub_step_wf.
Qed.

Lemma useAppRole_then_spec : handler_spec useAppRole_then roles_of (logged "[useAppRole]").
Proof.
  intros c r w. unfold useAppRole_then, roles_of, logged.
  destruct (is_cancelled c w); [done |].
  destruct (error r) as [e|]; unfold setLoading, setCell, console_error; simpl; [done |].
  by rewrite app_nil_r.
Qed.

Lemma useSubscription_then_spec :
  handler_spec useSubscription_then subscription_of (logged "[useSubscription]").
Proof.
  intros c r w. unfold useSubscription_then, subscription_of, logged.
  destruct (is_cancelled c w); [done |].
  destruct (error r) as [e|]; unfold setLoading, setCell, console_error; simpl; [done |].
  by rewrite app_nil_r.
Qed.

Lemma useAppRole_effect_fetch (userId app : option string) (sa : bool) (q : RoleQuery) :
  role_query (userId, app, sa) = Some q →
  fetch_body (useAppRole_effect userId app sa) q.
Proof.
  unfold role_query, useAppRole_effect. intros Hq w.
  destruct userId as [u|], app as [a|], sa; try done.
  destruct (truthy u && truthy a); by simplify_eq.
Qed.

Lemma useSubscription_effect_fetch (userId : option string) (q : SubQuery) :
  sub_query userId = Some q → fetch_body (useSubscription_effect userId) q.
Proof.
  unfold sub_query, useSubscription_effect. intros Hq w.
  destruct userId as [u|]; try done.
  destruct (truthy u); by simplify_eq.
Qed.

(** The world a render leaves behind is the effect run on the inputs'
    dependency array. *)
Lemma useAppRole_world (a : option AppId) (ctx : AuthContextType) (env : Env) (w : RoleWorld) :
  snd (useAppRole a ctx env w) =
    useEffect (useAppRole_effect (role_deps a ctx env).1.1 (role_deps a ctx env).1.2
                                 (role_deps a ctx env).2)
              (role_deps a ctx env) w.
Proof. reflexivity. Qed.

Lemma useSubscription_world (ctx : AuthContextType) (w : SubWorld) :
  snd (useSubscription ctx w) = useEffect (useSubscription_effect (sub_deps ctx)) (sub_deps ctx) w.
Proof. reflexivity. Qed.

Lemma role_run_app (tr tr' : list RoleEvent) :
  role_run (tr ++ tr') = fold_left role_step tr' (role_run tr).
Proof. unfold role_run. by rewrite fold_left_app. Qed.

Lemma sub_run_app (tr tr' : list SubEvent) :
  sub_run (tr ++ tr') = fold_left sub_step tr' (sub_run tr).
Proof. unfold sub_run. by rewrite fold_left_app. Qed.

(** C6.  Request fencing in both resolvers.  After any history, query [A]
    is sent for one identity (or application), the inputs switch before
    [A] settles and query [B] is sent; when [A] settles after [B] the
    cells hold [B]'s result, [loading] is false and nothing of [A] was
    stored or logged, and the same holds when [A] settles first.  More
    generally, once a render has changed the dependencies, a promise that
    was in flight before it settles without any effect on the cells or
    the console. *)
Theorem stale_result_discarded :
  (∀ (tr : list RoleEvent) aX ctxX envX aY ctxY envY qA qB rA rB,
     role_query (role_deps aX ctxX envX) = Some qA →
     role_query (role_deps aY ctxY envY) = Some qB →
     last_deps (role_run tr) ≠ Some (role_deps aX ctxX envX) →
     role_deps aX ctxX envX ≠ role_deps aY ctxY envY →
     ∀ A B, A = next_closure (role_run tr) → B = S A →
     observable (role_run (tr ++ [RoleRender aX ctxX envX; RoleRender aY ctxY envY;
                                  RoleSettle B rB; RoleSettle A rA]))
       = (roles_of rB, false, console (role_run tr) ++ logged "[useAppRole]" rB) ∧
     observable (role_run (tr ++ [RoleRender aX ctxX envX; RoleRender aY ctxY envY;
                                  RoleSettle A rA; RoleSettle B rB]))
       = (roles_of rB, false, console (role_run tr) ++ logged "[useAppRole]" rB) ∧
     observable (role_run (tr ++ [RoleRender aX ctxX envX; RoleRender aY ctxY envY;
                                  RoleSettle A rA]))
       = (cell (role_run tr), true, console (role_run tr))) ∧
  (∀ (tr : list RoleEvent) a ctx env c q r,
     inflight (role_run tr) !! c = Some q →
     last_deps (role_run tr) ≠ Some (role_deps a ctx env) →
     observable (role_run (tr ++ [RoleRender a ctx env; RoleSettle c r]))
       = observable (role_run (tr ++ [RoleRender a ctx env]))) ∧
  (∀ (tr : list SubEvent) ctxX ctxY qA qB rA rB,
     sub_query (sub_deps ctxX) = Some qA →
     sub_query (sub_deps ctxY) = Some qB →
     last_deps (sub_run tr) ≠ Some (sub_deps ctxX) →
     sub_deps ctxX ≠ sub_deps ctxY →
     ∀ A B, A = next_closure (sub_run tr) → B = S A →
     observable (sub_run (tr ++ [SubRender ctxX; SubRender ctxY; SubSettle B rB; SubSettle A rA]))
       = (subscription_of rB, false, console (sub_run tr) ++ logged "[useSubscription]" rB) ∧
     observable (sub_run (tr ++ [SubRender ctxX; SubRender ctxY; SubSettle A rA; SubSettle B rB]))
       = (subscription_of rB, false, console (sub_run tr) ++ logged "[useSubscription]" rB) ∧
     observable (sub_run (tr ++ [SubRender ctxX; SubRender ctxY; SubSettle A rA]))
       = (cell (sub_run tr), true, console (sub_run tr))) ∧
  (∀ (tr : list SubEvent) ctx c q r,
     inflight (sub_run tr) !! c = Some q →
     last_deps (sub_run tr) ≠ Some (sub_deps ctx) →
     observable (sub_run (tr ++ [SubRender ctx; SubSettle c r]))
       = observable (sub_run (tr ++ [SubRender ctx]))).
Proof.
  split; [| split; [| split]].
  - intros tr aX ctxX envX aY ctxY envY qA qB rA rB HqA HqB Hd Hne A B -> ->.
    rewrite !role_run_app. cbn [fold_left role_step]. rewrite !useAppRole_world.
    destruct (role_deps aX ctxX envX) as [[uX apX] sX] eqn:EX.
    destruct (role_deps aY ctxY envY) as [[uY apY] sY] eqn:EY.
    cbn [fst snd].
    pose proof (last_request_wins useAppRole_then _ _ _ _ _ _ qA qB rA rB (role_run tr)
                  useAppRole_then_spec
                  (useAppRole_effect_fetch uX apX sX qA HqA)
                  (useAppRole_effect_fetch uY apY sY qB HqB)
                  (role_run_wf tr) Hd Hne) as H.
    cbv zeta in H. tauto.
  - intros tr a ctx env c q r Hq Hd.
    rewrite !role_run_app. cbn [fold_left role_step]. rewrite useAppRole_world.
    apply (settle_cancelled _ _ _ _ _ _ useAppRole_then_spec).
    eapply useEffect_supersedes; [| apply role_run_wf | done | done].
    intros w0. apply useAppRole_effect_shape.
  - intros tr ctxX ctxY qA qB rA rB HqA HqB Hd Hne A B -> ->.
    rewrite !sub_run_app. cbn [fold_left sub_step]. rewrite !useSubscription_world.
    pose proof (last_request_wins useSubscription_then _ _ _ _ _ _ qA qB rA rB (sub_run tr)
                  useSubscription_then_spec
                  (useSubscription_effect_fetch _ qA HqA)
                  (useSubscription_effect_fetch _ qB HqB)
                  (sub_run_wf tr) Hd Hne) as H.
    cbv zeta in H. tauto.
  - intros tr ctx c q r Hq Hd.
    rewrite !sub_run_app. cbn [fold_left sub_step]. rewrite useSubscription_world.
    apply (settle_cancelled _ _ _ _ _ _ useSubscription_then_spec).
    eapply useEffect_supersedes; [| apply sub_run_wf | done | done].
    intros w0. apply useSubscription_effect_shape.
Qed.

Lemma stale_result_discarded_witness :
  observable (role_run ([] ++ [RoleRender None (Scenario.signed_in Scenario.u1) Scenario.on_event;
                               RoleRender None (Scenario.signed_in Scenario.u2) Scenario.on_event;
                               RoleSettle 1 {| data := Some [{| role := "viewer" |}]; error := None |};
                               RoleSettle 0 {| data := Some [{| role := "editor" |}]; error := None |}]))
    = (["viewer"], false, []) ∧
  observable (sub_run ([] ++ [SubRender (Scenario.signed_in Scenario.u1);
                              SubRender (Scenario.signed_in Scenario.u2);
                              SubSettle 1 (transport_failure "Failed to fetch");
                              SubSettle 0 (transport_failure "timeout")]))
    = (None, false, [["[useSubscription]"; "Failed to fetch"]]).
Proof.
  split.
  - refine (proj1 (proj1 stale_result_discarded [] None _ _ None _ _
                     {| rq_user_id := "u1"; rq_app := "event" |}
                     {| rq_user_id := "u2"; rq_app := "event" |} _ _ _ _ _ _ 0 1 _ _)).
    + vm_compute. reflexivity.
    + vm_compute. reflexivity.
    + vm_compute. discriminate.
    + vm_compute. discriminate.
    + reflexivity.
    + reflexivity.
  - refine (proj1 (proj1 (proj2 (proj2 stale_result_discarded)) [] _ _
                     {| sq_user_id := "u1" |} {| sq_user_id := "u2" |} _ _ _ _ _ _ 0 1 _ _)).
    + vm_compute. reflexivity.
    + vm_compute. reflexivity.
    + vm_compute. discriminate.
    + vm_compute. discriminate.
    + reflexivity.
    + reflexivity.
Defined.

(** ** The privileged flag *)

(** [useIsSuperAdmin] reads the [role] claim of [app_metadata] in the
    session, and nothing else. *)
Lemma useIsSuperAdmin_flag (st : ProviderState) :
  useIsSuperAdmin (value st) = true ↔
  ∃ s, session st = Some s ∧
       default ∅ (app_metadata (user s)) !! "role" = Some (JStr "super_admin").
Proof.
  unfold useIsSuperAdmin, useUser, value. cbn [ctx_user].
  destruct (session st) as [s|]; cbn [fmap option_fmap option_map uu_user publicMetadata].
  - unfold strict_eq_str, prop. split.
    + intros H. exists s. split; [done |].
      destruct (default ∅ (app_metadata (user s)) !! "role") as [[]|]; try done.
      by apply String.eqb_eq in H as ->.
    + intros (s' & [= <-] & ->). apply String.eqb_refl.
  - split; [done | by intros (s' & ? & _)].
Qed.

(** C5.  For an identity with the privileged flag, whatever the cells hold
    and whatever happened before, the render returns the roles
    [["super_admin"]] with [loading] false and a [hasRole] that accepts
    every role, and its effect sends no query and awaits none. *)
Theorem super_admin_short_circuit
    (appOverride : option AppId) (ctx : AuthContextType) (env : Env) (w : RoleWorld) :
  useIsSuperAdmin ctx = true →
  roles (fst (useAppRole appOverride ctx env w)) = ["super_admin"] ∧
  ar_loading (fst (useAppRole appOverride ctx env w)) = false ∧
  (∀ r, hasRole (fst (useAppRole appOverride ctx env w)) r = true) ∧
  network (snd (useAppRole appOverride ctx env w)) = network w ∧
  inflight (snd (useAppRole appOverride ctx env w)) = inflight w.
Proof.
  intros Hsa. unfold useAppRole. cbn [fst snd]. rewrite Hsa.
  split; [done |]. split; [done |]. split; [done |].
  unfold useEffect, useAppRole_effect.
  destruct (decide _) as [_ | _]; [done |].
  by destruct (cleanup w).
Qed.

Lemma super_admin_short_circuit_witness :
  roles (fst (useAppRole None (Scenario.signed_in Scenario.admin) Scenario.on_event (mount [])))
    = ["super_admin"] ∧
  ar_loading (fst (useAppRole None (Scenario.signed_in Scenario.admin) Scenario.on_event (mount [])))
    = false ∧
  network (snd (useAppRole None (Scenario.signed_in Scenario.admin) Scenario.on_event (mount [])))
    = [].
Proof.
  destruct (super_admin_short_circuit None (Scenario.signed_in Scenario.admin)
              Scenario.on_event (mount [])) as (H1 & H2 & _ & H4 & _).
  - vm_compute. reflexivity.
  - split; [exact H1 |]. split; [exact H2 | exact H4].
Defined.

(** ** Subscription tier *)

(** C4.  With the privileged flag [isPro] is true whatever the
    subscription cell holds, a cancelled Pro plan or no row at all;
    without it [isPro] is true exactly when the plan is ["pro"] and the
    status is ["active"] or ["trialing"].  The plan is that of the
    subscription, and ["free"] when there is none. *)
Theorem isPro_precedence (ctx : AuthContextType) (w : SubWorld) :
  (useIsSuperAdmin ctx = true → isPro (fst (useSubscription ctx w)) = true) ∧
  (useIsSuperAdmin ctx = false →
     (isPro (fst (useSubscription ctx w)) = true ↔
      us_plan (fst (useSubscription ctx w)) = "pro" ∧
      ∃ s, subscription (fst (useSubscription ctx w)) = Some s ∧
           (status s = "active" ∨ status s = "trialing"))) ∧
  us_plan (fst (useSubscription ctx w))
    = default "free" (plan <$> subscription (fst (useSubscription ctx w))) ∧
  subscription (fst (useSubscription ctx w)) = cell w.
Proof.
  unfold useSubscription. cbn [fst isPro us_plan subscription].
  split; [by intros -> |]. split; [| done].
  intros ->. cbn [orb].
  destruct (cell w) as [s|]; cbn [fmap option_fmap option_map default from_option].
  - unfold Datatypes.id. rewrite andb_true_iff, orb_true_iff, !String.eqb_eq. split.
    + intros [Hp Hs]. split; [done |]. by exists s.
    + by intros (Hp & s' & [= <-] & Hs).
  - split; [done | by intros (_ & s' & ? & _)].
Qed.

Lemma isPro_precedence_witness :
  isPro (fst (useSubscription (Scenario.signed_in Scenario.admin)
                (Scenario.holding (Some (Scenario.subscription_row "root" "pro" "canceled"))))) = true ∧
  isPro (fst (useSubscription (Scenario.signed_in Scenario.admin) (Scenario.holding None))) = true ∧
  isPro (fst (useSubscription (Scenario.signed_in Scenario.u1)
                (Scenario.holding (Some (Scenario.subscription_row "u1" "pro" "trialing"))))) = true.
Proof.
  split; [| split].
  - apply (proj1 (isPro_precedence _ _)). vm_compute. reflexivity.
  - apply (proj1 (isPro_precedence _ _)). vm_compute. reflexivity.
  - apply (proj1 (proj2 (isPro_precedence _ _))); [vm_compute; reflexivity |].
    split; [reflexivity |]. eexists. split; [reflexivity | by right].
Defined.

(** ** Gates *)

(** C8.  Inside a provider [RequireAuth] never throws.  It returns [null]
    while the provider has not answered; once it has, it returns the
    children when signed in and the fallback otherwise; and without a
    [fallback] prop the fallback is [null], so nothing is put on the
    page. *)
Theorem RequireAuth_decision (p : GateProps) (st : ProviderState) :
  under (Some (value st)) (RequireAuth p) = inr (RequireAuth p (value st)) ∧
  (isLoaded st = false → RequireAuth p (value st) = null) ∧
  (isLoaded st = true → is_Some (session st) →
     RequireAuth p (value st) = fragment (children p)) ∧
  (isLoaded st = true → session st = None →
     RequireAuth p (value st) = fragment (default null (fallback p))) ∧
  (isLoaded st = true → session st = None → fallback p = None →
     painted (RequireAuth p (value st)) = []) ∧
  (isLoaded st = false → painted (RequireAuth p (value st)) = []).
Proof.
  unfold RequireAuth, useAuth, value. cbn [auth_isLoaded auth_isSignedIn ctx_isLoaded ctx_isSignedIn].
  split; [reflexivity |].
  split; [by intros -> |].
  split; [intros -> Hs; by rewrite bool_decide_eq_true_2 |].
  split; [intros -> ->; by rewrite bool_decide_eq_false_2 by (by intros [? ?]) |].
  split; [| by intros ->].
  intros -> -> ->. by rewrite bool_decide_eq_false_2 by (by intros [? ?]).
Qed.

Lemma RequireAuth_decision_witness :
  RequireAuth {| children := element "page"; fallback := None |}
              (value {| session := None; isLoaded := false |}) = null ∧
  RequireAuth {| children := element "page"; fallback := Some (element "sign-in") |}
              (value {| session := Some (Scenario.session_of Scenario.u1); isLoaded := true |})
    = fragment (element "page") ∧
  RequireAuth {| children := element "page"; fallback := Some (element "sign-in") |}
              (value {| session := None; isLoaded := true |}) = fragment (element "sign-in") ∧
  painted (RequireAuth {| children := element "page"; fallback := None |}
                       (value {| session := None; isLoaded := true |})) = [].
Proof.
  split; [| split; [| split]].
  - by apply (proj1 (proj2 (RequireAuth_decision
                 {| children := element "page"; fallback := None |}
                 {| session := None; isLoaded := false |}))).
  - by apply (proj1 (proj2 (proj2 (RequireAuth_decision
                 {| children := element "page"; fallback := Some (element "sign-in") |}
                 {| session := Some (Scenario.session_of Scenario.u1); isLoaded := true |})))).
  - by apply (proj1 (proj2 (proj2 (proj2 (RequireAuth_decision
                 {| children := element "page"; fallback := Some (element "sign-in") |}
                 {| session := None; isLoaded := true |}))))).
  - by apply (proj1 (proj2 (proj2 (proj2 (proj2 (RequireAuth_decision
                 {| children := element "page"; fallback := None |}
                 {| session := None; isLoaded := true |})))))).
Defined.

(** ** Runs against the role store *)

(** The store's answer is scoped by both filters of the query. *)
Lemma role_answer_scoped (user_roles : list UserRole) (q : RoleQuery) (r : string) :
  In r (roles_of (role_answer user_roles q)) ↔
  granted user_roles (rq_user_id q) (rq_app q) r = true.
Proof.
  unfold roles_of, role_answer, granted.
  cbn [error data fmap option_fmap option_map default from_option]. unfold Datatypes.id.
  rewrite map_map. cbn [role]. rewrite in_map_iff, existsb_exists. split.
  - intros (row & <- & Hin%list_elem_of_In%list_elem_of_filter).
    destruct Hin as [Hm Hin%list_elem_of_In]. exists row. split; [done |].
    unfold matches in Hm. rewrite Hm. apply String.eqb_refl.
  - intros (row & Hin & [Hm Hr%String.eqb_eq]%andb_prop). exists row. split; [done |].
    apply list_elem_of_In, list_elem_of_filter. split; [done | by apply list_elem_of_In].
Qed.

Lemma useAppRole_effect_idle (userId app : option string) (sa : bool) (w : RoleWorld) :
  role_query (userId, app, sa) = None →
  useAppRole_effect userId app sa w
    = (None, setLoading false (if sa then w else setCell [] w)).
Proof.
  unfold role_query, useAppRole_effect. intros Hq.
  destruct sa; [done |].
  destruct userId as [u|], app as [a|]; try done.
  by destruct (truthy u && truthy a).
Qed.

Lemma role_inv_mount (user_roles : list UserRole) : role_inv user_roles (mount []).
Proof.
  split; simpl; try done.
Qed.

Lemma role_inv_render (user_roles : list UserRole) a ctx env (w : RoleWorld) :
  role_inv user_roles w → role_inv user_roles (snd (useAppRole a ctx env w)).
Proof.
  intros Hinv.
  pose proof (role_step_wf w (RoleRender a ctx env) (inv_wf _ _ Hinv)) as Hwf'.
  cbn [role_step] in Hwf'. revert Hwf'. rewrite useAppRole_world.
  destruct (role_deps a ctx env) as [[u ap] sa] eqn:Ed. cbn [fst snd]. intros Hwf'.
  destruct (decide (last_deps w = Some (u, ap, sa))) as [Hsame | Hnew].
  { by rewrite useEffect_same. }
  destruct (role_query (u, ap, sa)) as [q|] eqn:Eq.
  - revert Hwf'.
    rewrite (useEffect_fetch _ _ q w (useAppRole_effect_fetch u ap sa q Eq) Hnew).
    intros Hwf'. split; simpl; try done.
    + intros c q0 [[<- <-] | [Hne Hq0]]%lookup_insert_Some Hnc; [by eexists |].
      destruct Hnc. by eapply inflight_after_cleanup, Hq0; apply Hinv.
    + intros d q0 [= <-]. congruence.
  - revert Hwf'. unfold useEffect. rewrite decide_False by done.
    rewrite useAppRole_effect_idle by done.
    intros Hwf'. split; try done.
    + intros c q0 Hq0 Hnc. destruct Hnc.
      assert (Hc : c ∈ after_cleanup w).
      { eapply inflight_after_cleanup; [apply Hinv |].
        revert Hq0. by destruct sa, (cleanup w). }
      revert Hc. unfold after_cleanup. by destruct sa, (cleanup w).
    + intros d q0. simpl. intros [= <-]. congruence.
    + intros d. simpl. intros [= <-] Hsa _. simpl in Hsa. subst sa. by destruct (cleanup w).
Qed.

Lemma role_inv_settle (user_roles : list UserRole) (c : nat) r (w : RoleWorld) :
  role_inv user_roles w →
  (∀ q, inflight w !! c = Some q → r = role_answer user_roles q ∨ roles_of r = []) →
  role_inv user_roles (settle useAppRole_then c r w).
Proof.
  intros Hinv Hr.
  pose proof (role_step_wf w (RoleSettle c r) (inv_wf _ _ Hinv)) as Hwf'.
  cbn [role_step] in Hwf'. revert Hwf'.
  rewrite (settle_spec _ _ _ c r w useAppRole_then_spec).
  destruct (inflight w !! c) as [q|] eqn:Hq; [| done].
  destruct (bool_decide (c ∈ cancelled w)) eqn:Hc; intros Hwf'; split; simpl; try done.
  - intros c' q' [_ Hq']%lookup_delete_Some. by apply Hinv.
  - apply Hinv.
  - apply Hinv.
  - intros c' q' [_ Hq']%lookup_delete_Some. by apply Hinv.
  - apply bool_decide_eq_false in Hc.
    destruct (inv_live _ _ Hinv c q Hq Hc) as (d & Hd & Hdq).
    intros d' q' Hd' Hq' _ role_ Hin. simplify_eq.
    destruct (Hr _ eq_refl) as [-> | Hnil]; [by apply role_answer_scoped |].
    rewrite Hnil in Hin. destruct Hin.
  - apply bool_decide_eq_false in Hc.
    destruct (inv_live _ _ Hinv c q Hq Hc) as (d & Hd & Hdq).
    intros d' Hd' _ Hnone. congruence.
Qed.

Lemma role_store_run_inv (user_roles : list UserRole) (tr : list StoreEvent) :
  role_inv user_roles (role_store_run user_roles tr).
Proof.
  unfold role_store_run. apply (fold_left_invariant (role_inv user_roles)).
  - apply role_inv_mount.
  - intros w e Hinv. destruct e as [a ctx env | c | c msg]; cbn [role_reply role_step].
    + by apply role_inv_render.
    + apply role_inv_settle; [done |]. intros q ->. by left.
    + apply role_inv_settle; [done |]. intros q _. by right.
Qed.

(** What a render returns when the identity is not privileged. *)
Lemma useAppRole_view a ctx env (w : RoleWorld) :
  useIsSuperAdmin ctx = false →
  roles (fst (useAppRole a ctx env w)) = cell w ∧
  ar_loading (fst (useAppRole a ctx env w)) = loading w ∧
  (∀ r, hasRole (fst (useAppRole a ctx env w)) r = includes (cell w) r).
Proof. intros Hsa. unfold useAppRole. cbn [fst]. by rewrite Hsa. Qed.

Lemma role_query_not_privileged a ctx env q :
  role_query (role_deps a ctx env) = Some q → useIsSuperAdmin ctx = false.
Proof.
  unfold role_query, role_deps.
  destruct (cu_id <$> uu_user (useUser ctx)), (current_app a env),
    (useIsSuperAdmin ctx); done.
Qed.

(** Every query carries the user id and the application the render
    resolved. *)
Lemma role_query_scoped a ctx env q :
  role_query (role_deps a ctx env) = Some q →
  cu_id <$> uu_user (useUser ctx) = Some (rq_user_id q) ∧
  current_app a env = Some (rq_app q).
Proof.
  unfold role_query, role_deps.
  destruct (cu_id <$> uu_user (useUser ctx)) as [u|],
    (current_app a env) as [ap|], (useIsSuperAdmin ctx); try done.
  destruct (truthy u && truthy ap); [| done]. by intros [= <-].
Qed.

(** C2, counterexample.  [u1] is an editor of the event application and
    [u2] holds no role anywhere.  After [u1]'s roles are resolved the
    identity switches to [u2]: while [u2]'s query is loading, [hasRole]
    still answers from [u1]'s roles. *)
Lemma hasRole_stale_while_loading :
  useIsSuperAdmin (Scenario.signed_in Scenario.u2) = false ∧
  filter (λ row, ur_user_id row = "u2") Scenario.user_roles = [] ∧
  ar_loading (fst (useAppRole None (Scenario.signed_in Scenario.u2) Scenario.on_event
                     (role_store_run Scenario.user_roles
                        [Rendered None (Scenario.signed_in Scenario.u1) Scenario.on_event;
                         Answered 0;
                         Rendered None (Scenario.signed_in Scenario.u2) Scenario.on_event])))
    = true ∧
  hasRole (fst (useAppRole None (Scenario.signed_in Scenario.u2) Scenario.on_event
                  (role_store_run Scenario.user_roles
                     [Rendered None (Scenario.signed_in Scenario.u1) Scenario.on_event;
                      Answered 0;
                      Rendered None (Scenario.signed_in Scenario.u2) Scenario.on_event])))
          "editor"
    = true.
Proof. vm_compute. repeat split. Qed.

(** C2, as the code has it.  For an identity without the privileged flag
    to which the store grants no role in the application at hand, in
    every run against the store: once the effect has run for that
    identity and application and [loading] is false, that is, once its
    query has settled with the store's answer or with an error, [hasRole]
    is false for every role.  On a freshly mounted hook it is false while
    the first query is loading as well. *)
Theorem hasRole_fail_closed_once_settled
    (user_roles : list UserRole) (tr : list StoreEvent)
    (a : option AppId) (ctx : AuthContextType) (env : Env) (q : RoleQuery) :
  role_query (role_deps a ctx env) = Some q →
  (∀ r, granted user_roles (rq_user_id q) (rq_app q) r = false) →
  (last_deps (role_store_run user_roles tr) = Some (role_deps a ctx env) →
   loading (role_store_run user_roles tr) = false →
   ∀ r, hasRole (fst (useAppRole a ctx env (role_store_run user_roles tr))) r = false) ∧
  (∀ r, hasRole (fst (useAppRole a ctx env (mount []))) r = false) ∧
  (∀ r, hasRole (fst (useAppRole a ctx env (snd (useAppRole a ctx env (mount []))))) r = false).
Proof.
  intros Hq Hnone.
  pose proof (role_query_not_privileged _ _ _ _ Hq) as Hsa.
  split; [| split].
  - intros Hd Hl r.
    destruct (useAppRole_view a ctx env (role_store_run user_roles tr) Hsa) as (_ & _ & ->).
    destruct (includes (cell (role_store_run user_roles tr)) r) eqn:Hin; [| done].
    apply includes_In in Hin.
    pose proof (inv_settled _ _ (role_store_run_inv user_roles tr) _ _ Hd Hq Hl r Hin) as Hg.
    by rewrite Hnone in Hg.
  - intros r. by destruct (useAppRole_view a ctx env (mount []) Hsa) as (_ & _ & ->).
  - intros r.
    destruct (useAppRole_view a ctx env (snd (useAppRole a ctx env (mount []))) Hsa)
      as (_ & _ & ->).
    rewrite useAppRole_world.
    destruct (role_deps a ctx env) as [[u ap] sa]. cbn [fst snd].
    by rewrite (useEffect_fetch _ _ q _ (useAppRole_effect_fetch u ap sa q Hq)).
Qed.

Lemma hasRole_fail_closed_once_settled_witness :
  hasRole (fst (useAppRole None (Scenario.signed_in Scenario.u2) Scenario.on_event
                  (role_store_run Scenario.user_roles
                     [Rendered None (Scenario.signed_in Scenario.u1) Scenario.on_event;
                      Answered 0;
                      Rendered None (Scenario.signed_in Scenario.u2) Scenario.on_event;
                      Answered 1])))
          "editor"
    = false.
Proof.
  refine (proj1 (hasRole_fail_closed_once_settled Scenario.user_roles _ None _ _
                   {| rq_user_id := "u2"; rq_app := "event" |} _ _) _ _ "editor").
  - vm_compute. reflexivity.
  - intros r. vm_compute. reflexivity.
  - vm_compute. reflexivity.
  - vm_compute. reflexivity.
Defined.

(** ** The gate on roles and the scope of a grant *)

(** X18.  In every run against the store, at a render whose effect has already
    run for the inputs at hand, the gate of a non-privileged identity
    shows its children only for a role the store grants to that user in
    that application: otherwise it returns [null] or the fallback. *)
Lemma RequireRole_scoped (user_roles : list UserRole) (tr : list StoreEvent)
    (p : RequireRoleProps) (ctx : AuthContextType) (env : Env) :
  useIsSuperAdmin ctx = false →
  last_deps (role_store_run user_roles tr) = Some (role_deps (rr_app p) ctx env) →
  (∀ q, role_query (role_deps (rr_app p) ctx env) = Some q →
        granted user_roles (rq_user_id q) (rq_app q) (rr_role p) = false) →
  fst (RequireRole p ctx env (role_store_run user_roles tr)) = null ∨
  fst (RequireRole p ctx env (role_store_run user_roles tr))
    = fragment (default null (rr_fallback p)).
Proof.
  intros Hsa Hd Hnone. unfold RequireRole.
  destruct (useAppRole (rr_app p) ctx env (role_store_run user_roles tr)) as [r w'] eqn:Er.
  cbn [fst].
  destruct (useAppRole_view (rr_app p) ctx env (role_store_run user_roles tr) Hsa)
    as (_ & Hl & Hh).
  rewrite Er in Hl, Hh. cbn [fst] in Hl, Hh.
  destruct (ar_loading r) eqn:El; [by left | right].
  destruct (hasRole r (rr_role p)) eqn:Eh; [exfalso | done].
  rewrite Hh in Eh. apply includes_In in Eh.
  pose proof (role_store_run_inv user_roles tr) as Hinv.
  destruct (role_query (role_deps (rr_app p) ctx env)) as [q|] eqn:Eq.
  - pose proof (inv_settled _ _ Hinv _ _ Hd Eq (eq_sym Hl) _ Eh) as Hg.
    by rewrite (Hnone q eq_refl) in Hg.
  - destruct (inv_idle _ _ Hinv _ Hd) as [Hnil _]; [done | done |].
    rewrite Hnil in Eh. destruct Eh.
Qed.

(** C7, at the failing input.  A [RequireRole] for the role ["editor"]
    was rendered for the event application, where [u1] is an editor, and
    its query has settled.  The same instance is now rendered with
    [app = "garage"], where [u1] holds no role: this render still reads
    the cells left by the event query, [loading] false and the roles
    [["editor"]], and returns the children. *)
Lemma RequireRole_stale_app_render :
  granted Scenario.user_roles "u1" "garage" "editor" = false ∧
  useIsSuperAdmin (Scenario.signed_in Scenario.u1) = false ∧
  fst (RequireRole {| rr_role := "editor"; rr_app := Some "garage";
                      rr_children := element "garage-admin";
                      rr_fallback := Some (element "denied") |}
                   (Scenario.signed_in Scenario.u1) Scenario.on_event
                   (role_store_run Scenario.user_roles
                      [Rendered (Some "event") (Scenario.signed_in Scenario.u1) Scenario.on_event;
                       Answered 0]))
    = fragment (element "garage-admin") ∧
  network (snd (RequireRole {| rr_role := "editor"; rr_app := Some "garage";
                      rr_children := element "garage-admin";
                      rr_fallback := Some (element "denied") |}
                   (Scenario.signed_in Scenario.u1) Scenario.on_event
                   (role_store_run Scenario.user_roles
                      [Rendered (Some "event") (Scenario.signed_in Scenario.u1) Scenario.on_event;
                       Answered 0])))
    = [{| rq_user_id := "u1"; rq_app := "event" |}; {| rq_user_id := "u1"; rq_app := "garage" |}].
Proof. vm_compute. repeat split. Qed.

(** ** Subscription lookups that fail *)

(** C1, counterexample.  [u1] is signed in and has no row in
    [subscriptions].  The lookup resolves to the plan ["free"] with
    [loading] false, and an error was logged. *)
Lemma no_row_lookup_logs_error :
  us_plan (fst (useSubscription (Scenario.signed_in Scenario.u1)
                  (sub_run [SubRender (Scenario.signed_in Scenario.u1);
                            SubSettle 0 (sub_answer [] {| sq_user_id := "u1" |})]))) = "free" ∧
  us_loading (fst (useSubscription (Scenario.signed_in Scenario.u1)
                  (sub_run [SubRender (Scenario.signed_in Scenario.u1);
                            SubSettle 0 (sub_answer [] {| sq_user_id := "u1" |})]))) = false ∧
  console (sub_run [SubRender (Scenario.signed_in Scenario.u1);
                    SubSettle 0 (sub_answer [] {| sq_user_id := "u1" |})])
    = [["[useSubscription]"; "JSON object requested, multiple (or no) rows returned"]].
Proof. vm_compute. repeat split. Qed.

Lemma useSubscription_view ctx (w : SubWorld) :
  us_plan (fst (useSubscription ctx w)) = default "free" (plan <$> cell w) ∧
  subscription (fst (useSubscription ctx w)) = cell w ∧
  us_loading (fst (useSubscription ctx w)) = loading w.
Proof. done. Qed.

(** C1, as the code has it.  A signed-in identity starts a lookup and the
    lookup settles.  The callback looks at [error] only: whenever the
    response carries an error, be it the one [.single()] reports when no
    row matches or a transport failure, the hook resolves to the plan
    ["free"] with no subscription and [loading] false, and logs the
    error's message; a response without an error is stored and nothing
    is logged. *)
Theorem subscription_lookup_failure_resolves_free
    (tr : list SubEvent) (ctx : AuthContextType) (q : SubQuery) (r : Response Subscription) :
  sub_query (sub_deps ctx) = Some q →
  last_deps (sub_run tr) ≠ Some (sub_deps ctx) →
  (∀ e, error r = Some e →
     us_plan (fst (useSubscription ctx
        (sub_run (tr ++ [SubRender ctx; SubSettle (next_closure (sub_run tr)) r])))) = "free" ∧
     subscription (fst (useSubscription ctx
        (sub_run (tr ++ [SubRender ctx; SubSettle (next_closure (sub_run tr)) r])))) = None ∧
     us_loading (fst (useSubscription ctx
        (sub_run (tr ++ [SubRender ctx; SubSettle (next_closure (sub_run tr)) r])))) = false ∧
     console (sub_run (tr ++ [SubRender ctx; SubSettle (next_closure (sub_run tr)) r]))
       = console (sub_run tr) ++ [["[useSubscription]"; message e]]) ∧
  (error r = None →
     subscription (fst (useSubscription ctx
        (sub_run (tr ++ [SubRender ctx; SubSettle (next_closure (sub_run tr)) r])))) = data r ∧
     us_loading (fst (useSubscription ctx
        (sub_run (tr ++ [SubRender ctx; SubSettle (next_closure (sub_run tr)) r])))) = false ∧
     console (sub_run (tr ++ [SubRender ctx; SubSettle (next_closure (sub_run tr)) r]))
       = console (sub_run tr)) ∧
  (∀ subscriptions,
     filter (λ s, String.eqb (sub_user_id s) (sq_user_id q) = true) subscriptions = [] →
     ∃ e, error (sub_answer subscriptions q) = Some e ∧ code e = "PGRST116") ∧
  (∀ msg, ∃ e, error (transport_failure (A:=Subscription) msg) = Some e ∧ message e = msg).
Proof.
  intros Hq Hd.
  destruct (fetch_then_settle useSubscription_then _ _ _ (sub_deps ctx) q r (sub_run tr)
              useSubscription_then_spec (useSubscription_effect_fetch _ q Hq)
              (sub_run_wf tr) Hd) as [Hobs _].
  rewrite <- useSubscription_world in Hobs.
  assert (Hrun : sub_run (tr ++ [SubRender ctx; SubSettle (next_closure (sub_run tr)) r])
                 = settle useSubscription_then (next_closure (sub_run tr)) r
                          (snd (useSubscription ctx (sub_run tr)))).
  { by rewrite sub_run_app. }
  rewrite Hrun. clear Hrun.
  set (w' := settle _ _ _ _) in *.
  destruct (useSubscription_view ctx w') as (-> & -> & ->).
  unfold observable in Hobs. injection Hobs as Hcell Hload Hcons.
  rewrite Hcell, Hload, Hcons. unfold subscription_of, logged.
  split; [| split; [| split]].
  - intros e ->. by rewrite app_nil_r || done.
  - intros ->. by rewrite app_nil_r.
  - intros subscriptions Hnone. unfold sub_answer. rewrite Hnone. by eexists.
  - intros msg. by eexists.
Qed.

Lemma subscription_lookup_failure_resolves_free_witness :
  console (sub_run ([] ++ [SubRender (Scenario.signed_in Scenario.u1);
                           SubSettle (next_closure (sub_run [])) (transport_failure "Failed to fetch")]))
    = console (sub_run []) ++ [["[useSubscription]"; "Failed to fetch"]].
Proof.
  refine (proj2 (proj2 (proj2 (proj1 (subscription_lookup_failure_resolves_free
            [] (Scenario.signed_in Scenario.u1) {| sq_user_id := "u1" |}
            (transport_failure "Failed to fetch") _ _)
            {| message := "Failed to fetch"; code := "" |} eq_refl)))).
  - vm_compute. reflexivity.
  - vm_compute. discriminate.
Defined.

End AuthorizationFacts.

(* ===================================================================== *)
(** * Further properties of lib/config.ts *)
(* ===================================================================== *)

Section ConfigInfoFacts.
Import Config.

(** The list and the map are the same object literal, and no key occurs
    twice in it. *)
Lemma APP_CONFIG_literal_spec :
  APP_CONFIG = list_to_map APP_CONFIG_literal ∧ NoDup (map fst APP_CONFIG_literal).
Proof.
  split; [reflexivity |].
  apply (bool_decide_unpack _). vm_compute. exact I.
Qed.

(** Every application id has an entry among the values. *)
Lemma find_valid_app (a : AppId) :
  In a valid_app_ids →
  ∃ info, List.find (λ info, String.eqb (app info) a) APP_CONFIG_values = Some info.
Proof.
  unfold valid_app_ids. simpl.
  intros H. repeat (destruct H as [<- | H]; [vm_compute; by eexists |]). destruct H.
Qed.

(** Entries of one application carry one name: looking an entry's
    application up among the values gives the entry back. *)
Lemma find_entry_app (h : string) (entry : AppInfo) :
  APP_CONFIG !! h = Some entry →
  List.find (λ info, String.eqb (app info) (app entry)) APP_CONFIG_values = Some entry.
Proof.
  intros H.
  assert (Hall : map_Forall
            (λ _ i, List.find (λ info, String.eqb (app info) (app i)) APP_CONFIG_values = Some i)
            APP_CONFIG).
  { apply map_Forall_to_list. vm_compute. repeat constructor. }
  exact (Hall h entry H).
Qed.

(** X1.  [getCurrentAppInfo] is null exactly when [getCurrentApp] gives no
    application id (null, or undefined on a hostname named after a member
    of the prototype): the search through the values never falls through,
    since every application id has a domain in the table.  The info it
    returns is of the current application, and on a hostname that is a
    key of the table it is the very entry of that hostname. *)
Theorem getCurrentAppInfo_agrees (e : Env) :
  (getCurrentAppInfo e = None ↔ getCurrentApp e = None) ∧
  (∀ info, getCurrentAppInfo e = Some info → getCurrentApp e = Some (app info)) ∧
  (∀ h entry, hostname e = Some h → APP_CONFIG !! h = Some entry →
     getCurrentAppInfo e = Some entry).
Proof.
  unfold getCurrentAppInfo. split; [| split].
  - destruct (getCurrentApp e) as [a|] eqn:Ha; [| done].
    pose proof (getCurrentApp_valid e a Ha) as Hin.
    rewrite (valid_app_id_truthy a Hin).
    destruct (find_valid_app a Hin) as (info & ->). done.
  - intros info.
    destruct (getCurrentApp e) as [a|] eqn:Ha; [| done].
    destruct (truthy a); [| done].
    intros [_ Heq%String.eqb_eq]%List.find_some. by rewrite Heq.
  - intros h entry Hh Hentry.
    rewrite (getCurrentApp_own e h entry Hh Hentry).
    rewrite (valid_app_id_truthy _ (APP_CONFIG_apps_valid h entry Hentry)).
    by eapply find_entry_app.
Qed.

Lemma getCurrentAppInfo_agrees_witness :
  getCurrentAppInfo {| hostname := Some "localhost"; VITE_APP_ID := Some "plate" |}
    = Some {| app := "plate"; name := "MyResto Plate" |} ∧
  getCurrentAppInfo {| hostname := Some "www.myrestohub.com"; VITE_APP_ID := Some "plate" |}
    = Some {| app := "hub"; name := "MyResto Hub" |} ∧
  getCurrentAppInfo {| hostname := Some "localhost"; VITE_APP_ID := None |} = None ∧
  getCurrentAppInfo {| hostname := Some "constructor"; VITE_APP_ID := Some "plate" |} = None.
Proof.
  split; [| split; [| split]].
  - vm_compute. reflexivity.
  - apply (proj2 (proj2 (getCurrentAppInfo_agrees _)) "www.myrestohub.com"); vm_compute; reflexivity.
  - apply (proj1 (getCurrentAppInfo_agrees _)). vm_compute. reflexivity.
  - apply (proj1 (getCurrentAppInfo_agrees _)). vm_compute. reflexivity.
Defined.

End ConfigInfoFacts.

(* ===================================================================== *)
(** * Further properties of lib/supabase-auth.tsx *)
(* ===================================================================== *)

Section ProviderFacts.
Import SupabaseAuth Authorization Components.

Lemma isLoaded_step (st : ProviderState) (e : ProviderEvent) :
  isLoaded (step st e) = isLoaded st || match e with SessionFetched _ => true | _ => false end.
Proof. destruct e; simpl; by rewrite ?orb_true_r, ?orb_false_r. Qed.

Lemma isLoaded_run (tr : list ProviderEvent) (st : ProviderState) :
  isLoaded (run tr st) = true ↔ isLoaded st = true ∨ ∃ s, In (SessionFetched s) tr.
Proof.
  revert st. induction tr as [| e tr IH]; intros st.
  - simpl. split; [by left | by intros [? | [? []]]].
  - unfold run in *. cbn [fold_left]. rewrite IH, isLoaded_step, orb_true_iff. split.
    + intros [[? | He] | [s Hs]]; [by left | | right; exists s; by right].
      destruct e as [s | |]; try done. right. exists s. by left.
    + intros [? | [s [-> | Hs]]]; [by left; left | by left; right | right; by exists s].
Qed.

(** X2.  [isLoaded] becomes true when the promise of the initial
    [getSession()] resolves, and at no other moment: sessions delivered by
    the auth-state listener do not set it, and nothing resets it.  Until
    then [RequireAuth] returns [null], signed in or not. *)
Theorem isLoaded_iff_session_fetched (tr : list ProviderEvent) :
  (isLoaded (run tr initial) = true ↔ ∃ s, In (SessionFetched s) tr) ∧
  (∀ tr', isLoaded (run tr initial) = true → isLoaded (run (tr ++ tr') initial) = true) ∧
  ((∀ s, ¬ In (SessionFetched s) tr) → ∀ p, RequireAuth p (value (run tr initial)) = null).
Proof.
  split; [| split].
  - rewrite isLoaded_run. split; [by intros [? | ?] | by right].
  - intros tr' H. rewrite run_app. apply isLoaded_run. by left.
  - intros Hno p. unfold RequireAuth, useAuth, value.
    cbn [auth_isLoaded ctx_isLoaded].
    destruct (isLoaded (run tr initial)) eqn:Hl; [| done].
    apply isLoaded_run in Hl as [? | [s Hs]]; [done | by destruct (Hno s)].
Qed.

Lemma isLoaded_iff_session_fetched_witness :
  RequireAuth {| children := element "page"; fallback := Some (element "sign-in") |}
    (value (run [AuthStateChange (Some (Scenario.session_of Scenario.u1))] initial)) = null.
Proof.
  apply (proj2 (proj2 (isLoaded_iff_session_fetched _))).
  intros s [H | []]. discriminate H.
Defined.

(** X3.  The two hooks read the same session: they agree on
    [isSignedIn], the user of [useUser] is present exactly when signed
    in, and its id is the [userId] of [useAuth].  They differ on
    [isLoaded]: [useUser] reports loaded as soon as a user is present,
    also before the provider's initial answer. *)
Theorem useUser_useAuth_agree (st : ProviderState) :
  uu_isSignedIn (useUser (value st)) = auth_isSignedIn (useAuth (value st)) ∧
  cu_id <$> uu_user (useUser (value st)) = auth_userId (useAuth (value st)) ∧
  (is_Some (uu_user (useUser (value st))) ↔ auth_isSignedIn (useAuth (value st)) = true) ∧
  uu_isLoaded (useUser (value st))
    = auth_isLoaded (useAuth (value st)) || auth_isSignedIn (useAuth (value st)).
Proof.
  unfold useUser, useAuth, value.
  cbn [ctx_user ctx_isLoaded ctx_isSignedIn auth_isSignedIn auth_userId auth_isLoaded].
  destruct (session st) as [s|]; cbn [fmap option_fmap option_map uu_user uu_isSignedIn uu_isLoaded cu_id].
  - rewrite bool_decide_eq_true_2 by done. rewrite orb_true_r. repeat split; by eauto.
  - rewrite bool_decide_eq_false_2 by (by intros [? ?]). rewrite orb_false_r.
    repeat split; try done; by intros [? ?].
Qed.

(** X4.  [SignedIn] and [SignedOut] never both render; before the
    provider has answered neither does, afterwards exactly one does; and
    [RequireAuth] with a fallback puts on the page what [SignedIn] around
    its children and [SignedOut] around its fallback put together. *)
Theorem SignedIn_SignedOut_exclusive (c f : ReactNode) (ctx : AuthContextType) :
  (SignedIn c ctx = null ∨ SignedOut f ctx = null) ∧
  (ctx_isLoaded ctx = false → SignedIn c ctx = null ∧ SignedOut f ctx = null) ∧
  (ctx_isLoaded ctx = true →
     (SignedIn c ctx = fragment c ∧ SignedOut f ctx = null ∧ ctx_isSignedIn ctx = true) ∨
     (SignedIn c ctx = null ∧ SignedOut f ctx = fragment f ∧ ctx_isSignedIn ctx = false)) ∧
  painted (RequireAuth {| children := c; fallback := Some f |} ctx)
    = painted (SignedIn c ctx) ++ painted (SignedOut f ctx).
Proof.
  unfold SignedIn, SignedOut, RequireAuth, useAuth.
  cbn [auth_isLoaded auth_isSignedIn children fallback default from_option].
  destruct (ctx_isLoaded ctx), (ctx_isSignedIn ctx); cbn [andb negb painted app];
    rewrite ?app_nil_r; repeat split; auto; try discriminate.
Qed.

End ProviderFacts.

Section ComponentFacts.
Import SupabaseAuth Components.

(** ** The client singleton *)

Lemma getSupabase_cached (createClient : string → string → Exc SupabaseClient)
    (env : ImportMetaEnv) (c : SupabaseClient) :
  getSupabase createClient env (Some c) = (inr c, Some c).
Proof. reflexivity. Qed.

Lemma getSupabase_calls_cached (createClient : string → string → Exc SupabaseClient)
    (envs : list ImportMetaEnv) (c : SupabaseClient) :
  getSupabase_calls createClient envs (Some c) = (repeat (inr c) (length envs), Some c).
Proof.
  induction envs as [| env envs IH]; [done |].
  cbn [getSupabase_calls length repeat]. rewrite getSupabase_cached, IH. done.
Qed.

Lemma getSupabase_incomplete (createClient : string → string → Exc SupabaseClient)
    (env : ImportMetaEnv) :
  incomplete env →
  getSupabase createClient env None
    = (throw "Missing VITE_SUPABASE_URL or VITE_SUPABASE_ANON_KEY environment variables", None).
Proof.
  intros Hinc. unfold getSupabase, incomplete in *.
  destruct (VITE_SUPABASE_URL env) as [u|], (VITE_SUPABASE_ANON_KEY env) as [k|];
    try done.
  destruct (negb (truthy u) || negb (truthy k)) eqn:E; [done |].
  apply orb_false_elim in E as [Eu%negb_false_iff Ek%negb_false_iff].
  destruct Hinc as [? | [[= ->] | [? | [= ->]]]]; done.
Qed.

(** X5.  The client is a singleton.  Once a call has returned a client,
    every later call returns that client and leaves it in place, whatever
    the environment has become, and so never throws. *)
Theorem getSupabase_singleton
    (createClient : string → string → Exc SupabaseClient)
    (env : ImportMetaEnv) (st st' : option SupabaseClient) (c : SupabaseClient)
    (envs : list ImportMetaEnv) :
  getSupabase createClient env st = (inr c, st') →
  st' = Some c ∧
  getSupabase_calls createClient envs st' = (repeat (inr c) (length envs), Some c).
Proof.
  intros H.
  assert (Hst : st' = Some c).
  { unfold getSupabase in H. destruct st as [c0|]; [by simplify_eq |].
    destruct (VITE_SUPABASE_URL env) as [u|], (VITE_SUPABASE_ANON_KEY env) as [k|];
      try discriminate H.
    destruct (negb (truthy u) || negb (truthy k)); [discriminate H |].
    destruct (createClient u k) as [err|client]; [discriminate H | by simplify_eq]. }
  split; [done |]. subst st'. apply getSupabase_calls_cached.
Qed.

Lemma getSupabase_singleton_witness :
  getSupabase_calls Scenario.createClient
    [ {| VITE_SUPABASE_URL := None; VITE_SUPABASE_ANON_KEY := None |};
      {| VITE_SUPABASE_URL := Some "https://other.supabase.co"; VITE_SUPABASE_ANON_KEY := Some "k2" |} ]
    (Some {| supabaseUrl := "https://x.supabase.co"; supabaseKey := "k1" |})
  = ([inr {| supabaseUrl := "https://x.supabase.co"; supabaseKey := "k1" |};
      inr {| supabaseUrl := "https://x.supabase.co"; supabaseKey := "k1" |}],
     Some {| supabaseUrl := "https://x.supabase.co"; supabaseKey := "k1" |}).
Proof.
  refine (proj2 (getSupabase_singleton Scenario.createClient
           {| VITE_SUPABASE_URL := Some "https://x.supabase.co"; VITE_SUPABASE_ANON_KEY := Some "k1" |}
           None (Some {| supabaseUrl := "https://x.supabase.co"; supabaseKey := "k1" |})
           {| supabaseUrl := "https://x.supabase.co"; supabaseKey := "k1" |}
           [ {| VITE_SUPABASE_URL := None; VITE_SUPABASE_ANON_KEY := None |};
             {| VITE_SUPABASE_URL := Some "https://other.supabase.co";
                VITE_SUPABASE_ANON_KEY := Some "k2" |} ] _)).
  reflexivity.
Defined.

(** X6.  Without a client yet, a call under an environment whose URL or
    key is absent or empty throws the missing-variables error and creates
    nothing, and [createClient] is not reached.  No failure is
    remembered: the next call, under an environment with both values,
    hands them to [createClient]; if that returns a client, the call
    returns it and keeps it; if that throws, the call throws the same
    error and still keeps nothing, so that the call after it tries
    again. *)
Theorem getSupabase_missing_configuration
    (createClient : string → string → Exc SupabaseClient)
    (env : ImportMetaEnv) (url key : string) :
  incomplete env → truthy url = true → truthy key = true →
  (∀ other, getSupabase other env None
     = (inl "Missing VITE_SUPABASE_URL or VITE_SUPABASE_ANON_KEY environment variables", None)) ∧
  (∀ client, createClient url key = inr client →
     getSupabase_calls createClient
       [env; {| VITE_SUPABASE_URL := Some url; VITE_SUPABASE_ANON_KEY := Some key |}] None
     = ([inl "Missing VITE_SUPABASE_URL or VITE_SUPABASE_ANON_KEY environment variables";
         inr client], Some client)) ∧
  (∀ err, createClient url key = inl err →
     getSupabase_calls createClient
       [env; {| VITE_SUPABASE_URL := Some url; VITE_SUPABASE_ANON_KEY := Some key |};
             {| VITE_SUPABASE_URL := Some url; VITE_SUPABASE_ANON_KEY := Some key |}] None
     = ([inl "Missing VITE_SUPABASE_URL or VITE_SUPABASE_ANON_KEY environment variables";
         inl err; inl err], None)).
Proof.
  intros Hinc Hu Hk.
  pose proof (getSupabase_incomplete createClient env Hinc) as Hmsg.
  split; [intros other; by apply getSupabase_incomplete |]. split.
  - intros client Hc.
    cbn [getSupabase_calls]. rewrite Hmsg.
    unfold getSupabase. cbn [VITE_SUPABASE_URL VITE_SUPABASE_ANON_KEY].
    by rewrite Hu, Hk, Hc.
  - intros err Hc.
    cbn [getSupabase_calls]. rewrite Hmsg.
    unfold getSupabase. cbn [VITE_SUPABASE_URL VITE_SUPABASE_ANON_KEY].
    by rewrite Hu, Hk, Hc.
Qed.

(** An empty key stops the call before [createClient]; with the key set,
    the example client is created from an https URL, and a URL that is
    not one is refused at every call. *)
Lemma getSupabase_missing_configuration_witness :
  getSupabase_calls Scenario.createClient
    [ {| VITE_SUPABASE_URL := Some "https://x.supabase.co"; VITE_SUPABASE_ANON_KEY := Some "" |};
      {| VITE_SUPABASE_URL := Some "https://x.supabase.co"; VITE_SUPABASE_ANON_KEY := Some "k1" |} ]
    None
  = ([inl "Missing VITE_SUPABASE_URL or VITE_SUPABASE_ANON_KEY environment variables";
      inr {| supabaseUrl := "https://x.supabase.co"; supabaseKey := "k1" |}],
     Some {| supabaseUrl := "https://x.supabase.co"; supabaseKey := "k1" |}) ∧
  getSupabase_calls Scenario.createClient
    [ {| VITE_SUPABASE_URL := Some "https://x.supabase.co"; VITE_SUPABASE_ANON_KEY := Some "" |};
      {| VITE_SUPABASE_URL := Some "not a url"; VITE_SUPABASE_ANON_KEY := Some "k1" |};
      {| VITE_SUPABASE_URL := Some "not a url"; VITE_SUPABASE_ANON_KEY := Some "k1" |} ]
    None
  = ([inl "Missing VITE_SUPABASE_URL or VITE_SUPABASE_ANON_KEY environment variables";
      inl "Invalid supabaseUrl: Must be a valid HTTP or HTTPS URL.";
      inl "Invalid supabaseUrl: Must be a valid HTTP or HTTPS URL."], None).
Proof.
  assert (Hinc : incomplete {| VITE_SUPABASE_URL := Some "https://x.supabase.co";
                               VITE_SUPABASE_ANON_KEY := Some "" |}).
  { unfold incomplete. simpl. tauto. }
  split.
  - exact (proj1 (proj2 (getSupabase_missing_configuration Scenario.createClient _
             "https://x.supabase.co" "k1" Hinc eq_refl eq_refl)) _ eq_refl).
  - exact (proj2 (proj2 (getSupabase_missing_configuration Scenario.createClient _
             "not a url" "k1" Hinc eq_refl eq_refl)) _ eq_refl).
Defined.

(** ** SignIn *)

Lemma or_else_truthy (a : option string) (b : string) : truthy b = true → truthy (or_else a b) = true.
Proof. intros Hb. unfold or_else. destruct a as [s|]; [| done]. by destruct (truthy s) eqn:E. Qed.

Lemma dest_truthy (p : SignInProps) : truthy (dest p) = true.
Proof. unfold dest. by do 2 apply or_else_truthy. Qed.

Lemma SignIn_href_step (origin : string) (p : SignInProps) (pg : SignInPage) (e : SignInEvent) :
  sp_href (SignIn_step origin p pg e)
    = sp_href pg ++ (if is_sign_in_success e then [dest p] else []).
Proof.
  destruct e as [| | | [msg|] | | | | [msg|] |]; simpl; rewrite ?app_nil_r; try done.
  by destruct (truthy msg).
Qed.

Lemma SignIn_calls_step (origin : string) (p : SignInProps) (pg : SignInPage) (e : SignInEvent) :
  Forall (λ c, ∀ r, redirect_of c = Some r →
                    r = origin +:+ "/reset-password" ∨ r = origin +:+ dest p) (sp_calls pg) →
  Forall (λ c, ∀ r, redirect_of c = Some r →
                    r = origin +:+ "/reset-password" ∨ r = origin +:+ dest p)
         (sp_calls (SignIn_step origin p pg e)).
Proof.
  intros H.
  destruct e as [| | | [msg|] | | | | [msg|] |]; simpl; try done;
    try (by destruct (truthy msg));
    apply Forall_app; (split; [done |]); (constructor; [| constructor]);
    simpl; intros r Hr; simplify_eq; auto.
Qed.

Lemma SignIn_quiet_step (origin : string) (p : SignInProps) (pg : SignInPage) (e : SignInEvent) :
  (si_loading (sp_state pg) = true → si_error (sp_state pg) = "") →
  si_loading (sp_state (SignIn_step origin p pg e)) = true →
  si_error (sp_state (SignIn_step origin p pg e)) = "".
Proof.
  intros H.
  destruct e as [| | | [msg|] | | | | [msg|] |]; simpl; try done.
  by destruct (truthy msg).
Qed.

Lemma SignIn_oauth_step (origin : string) (p : SignInProps) (pg : SignInPage) (e : SignInEvent) :
  List.filter is_oauth (sp_calls (SignIn_step origin p pg e))
    = List.filter is_oauth (sp_calls pg)
      ++ (if is_google_click e then [signInWithOAuth "google" (origin +:+ dest p)] else []).
Proof.
  destruct e as [| | | [msg|] | | | | [msg|] |]; simpl;
    rewrite ?List.filter_app, ?app_nil_r; try done.
  by destruct (truthy msg).
Qed.

(** X7.  In every run of the sign-in form over a configured client, the
    form's own handlers assign [window.location.href] only in the
    continuation of a sign-in call that settled without an error, each
    time to [afterSignInUrl || redirectUrl || '/dashboard'], which is
    never empty; the failure branch, the password-reset flow and the
    OAuth handler assign nothing.  Each click on the Google button does
    one thing: it calls [signInWithOAuth] for ["google"] with the origin
    followed by that destination as [redirectTo], and leaves the browser
    to that call.  Every redirect target handed to the provider is the
    origin followed by ["/reset-password"] or by that destination.  And
    no error message is in the form while a request is in progress. *)
Theorem SignIn_assigns_href_only_on_success
    (origin : string) (p : SignInProps) (tr : list SignInEvent) :
  sp_href (SignIn_run origin p tr)
    = repeat (dest p) (length (List.filter is_sign_in_success tr)) ∧
  dest p ≠ "" ∧
  List.filter is_oauth (sp_calls (SignIn_run origin p tr))
    = repeat (signInWithOAuth "google" (origin +:+ dest p))
             (length (List.filter is_google_click tr)) ∧
  Forall (λ c, ∀ r, redirect_of c = Some r →
                    r = origin +:+ "/reset-password" ∨ r = origin +:+ dest p)
         (sp_calls (SignIn_run origin p tr)) ∧
  (si_loading (sp_state (SignIn_run origin p tr)) = true →
   si_error (sp_state (SignIn_run origin p tr)) = "").
Proof.
  split; [| split; [| split; [| split]]].
  - unfold SignIn_run.
    assert (Hgen : ∀ pg, sp_href (fold_left (SignIn_step origin p) tr pg)
                         = sp_href pg ++ repeat (dest p) (length (List.filter is_sign_in_success tr))).
    { induction tr as [| e tr IH]; intros pg; cbn [fold_left List.filter].
      - by rewrite app_nil_r.
      - rewrite IH, SignIn_href_step, <- app_assoc. f_equal.
        by destruct (is_sign_in_success e). }
    by rewrite Hgen.
  - pose proof (dest_truthy p) as H. intros E. rewrite E in H. discriminate H.
  - unfold SignIn_run.
    assert (Hgen : ∀ pg, List.filter is_oauth (sp_calls (fold_left (SignIn_step origin p) tr pg))
                         = List.filter is_oauth (sp_calls pg)
                           ++ repeat (signInWithOAuth "google" (origin +:+ dest p))
                                     (length (List.filter is_google_click tr))).
    { induction tr as [| e tr IH]; intros pg; cbn [fold_left List.filter].
      - by rewrite app_nil_r.
      - rewrite IH, SignIn_oauth_step, <- app_assoc. f_equal.
        by destruct (is_google_click e). }
    by rewrite Hgen.
  - unfold SignIn_run. apply (fold_left_invariant
      (λ pg, Forall (λ c, ∀ r, redirect_of c = Some r →
                       r = origin +:+ "/reset-password" ∨ r = origin +:+ dest p) (sp_calls pg))).
    + constructor.
    + intros pg e. apply SignIn_calls_step.
  - unfold SignIn_run. apply (fold_left_invariant
      (λ pg, si_loading (sp_state pg) = true → si_error (sp_state pg) = "")).
    + done.
    + intros pg e. apply SignIn_quiet_step.
Qed.

(** ** SignUp *)

Lemma signUp_data_lookup (f l : string) :
  signUp_data f l !! "first_name" = Some (or_null f) ∧
  signUp_data f l !! "last_name" = Some (or_null l) ∧
  signUp_data f l !! "full_name" = Some (or_null (signUp_fullName f l)) ∧
  signUp_data f l !! "avatar_url" = None ∧
  signUp_data f l !! "username" = None.
Proof.
  unfold signUp_data. repeat split.
Qed.

Lemma coalesce_or_null (s : string) : coalesce (Some (or_null s)) JNull = or_null s.
Proof. unfold or_null. by destruct (truthy s). Qed.

Lemma truthy_spec (s : string) : truthy s = false ↔ s = "".
Proof.
  unfold truthy. rewrite negb_false_iff. apply String.eqb_eq.
Qed.

(** The full name built from the two inputs: the non-empty ones, one
    space between them when both are given. *)
Lemma signUp_fullName_cases (f l : string) :
  signUp_fullName f l =
    if truthy f then (if truthy l then f +:+ " " +:+ l else f) else l.
Proof.
  unfold signUp_fullName. cbn [List.filter].
  destruct (truthy f) eqn:Ef, (truthy l) eqn:El; cbn [join]; try done.
  by apply truthy_spec in El as ->.
Qed.

Lemma truthy_append (a b : string) : truthy a = true → truthy (a +:+ b) = true.
Proof. by destruct a. Qed.

Lemma fullName_null_iff (f l : string) :
  or_null (if truthy f then (if truthy l then f +:+ " " +:+ l else f) else l) = JNull
  ↔ f = "" ∧ l = "".
Proof.
  destruct (truthy f) eqn:Ef, (truthy l) eqn:El; cbv iota; unfold or_null.
  - rewrite (truthy_append f _ Ef). split; [done |]. intros [-> _]. discriminate Ef.
  - rewrite Ef. split; [done |]. intros [-> _]. discriminate Ef.
  - rewrite El. split; [done |]. intros [_ ->]. discriminate El.
  - rewrite El. split; [| done]. intros _. split; by apply truthy_spec.
Qed.

(** X8.  What a registration sends comes back through [useUser].  For a
    user whose [user_metadata] is the data object the sign-up form sent,
    [firstName] and [lastName] are the typed names, null when left empty;
    [fullName] is null exactly when both were left empty and otherwise
    the non-empty names with a single space between them when both are
    given; [username] is null and the avatar is the generated one. *)
Theorem signUp_useUser_round_trip
    (u : User) (token : string) (loaded : bool) (f l : string) :
  user_metadata u = Some (signUp_data f l) →
  ∃ cu,
    uu_user (useUser (value {| session := Some {| user := u; access_token := token |};
                               isLoaded := loaded |})) = Some cu ∧
    firstName cu = or_null f ∧
    lastName cu = or_null l ∧
    fullName cu = or_null (if truthy f then (if truthy l then f +:+ " " +:+ l else f) else l) ∧
    (fullName cu = JNull ↔ f = "" ∧ l = "") ∧
    username cu = JNull ∧
    imageUrl cu = JStr (generated_avatar (id u)).
Proof.
  intros Hmeta. unfold useUser, value.
  cbn [ctx_user session fmap option_fmap option_map SupabaseAuth.user].
  rewrite Hmeta. cbn [default from_option]. unfold Datatypes.id, prop.
  destruct (signUp_data_lookup f l) as (-> & -> & -> & -> & ->).
  eexists. split; [reflexivity |].
  cbn [firstName lastName fullName username imageUrl].
  rewrite !coalesce_or_null, signUp_fullName_cases.
  split; [done |]. split; [done |]. split; [done |].
  split; [apply fullName_null_iff |]. done.
Qed.

Lemma signUp_useUser_round_trip_witness :
  fullName <$> uu_user (useUser (value
     {| session := Some {| user := Scenario.mkUser "u9" (Some (signUp_data "Ada" "")) None;
                           access_token := "jwt" |};
        isLoaded := true |})) = Some (JStr "Ada").
Proof.
  destruct (signUp_useUser_round_trip (Scenario.mkUser "u9" (Some (signUp_data "Ada" "")) None)
              "jwt" true "Ada" "" eq_refl) as (cu & Hu & _ & _ & Hf & _).
  rewrite Hu. cbn [fmap option_fmap option_map]. rewrite Hf. reflexivity.
Defined.

End ComponentFacts.

(* ===================================================================== *)
(** * Further properties of lib/authorization.tsx *)
(* ===================================================================== *)

Section EntitlementFacts.
Import Config SupabaseAuth Hook Authorization.

(** ** Only a change of the dependencies refetches *)

Lemma role_deps_same_user (a : option AppId) (env : Env) (s s' : Session) (l l' : bool) :
  id (user s) = id (user s') → app_metadata (user s) = app_metadata (user s') →
  role_deps a (value {| session := Some s; isLoaded := l |}) env
    = role_deps a (value {| session := Some s'; isLoaded := l' |}) env.
Proof.
  intros Hid Hmeta. unfold role_deps, useIsSuperAdmin, useUser, value.
  cbn [ctx_user session fmap option_fmap option_map uu_user cu_id publicMetadata].
  by rewrite Hid, Hmeta.
Qed.

Lemma sub_deps_same_user (s s' : Session) (l l' : bool) :
  id (user s) = id (user s') →
  sub_deps (value {| session := Some s; isLoaded := l |})
    = sub_deps (value {| session := Some s'; isLoaded := l' |}).
Proof.
  intros Hid. unfold sub_deps, useUser, value.
  cbn [ctx_user session fmap option_fmap option_map uu_user cu_id].
  by rewrite Hid.
Qed.

(** X9.  A session replaced by another one of the same user, with the
    same user id and [app_metadata] (a refreshed token, a changed
    e-mail or [user_metadata]), changes no dependency of the two hooks:
    the next render sends no query and leaves both hooks as they were,
    whatever they were doing. *)
Theorem token_refresh_does_not_refetch
    (a : option AppId) (env : Env) (s s' : Session) (l l' : bool)
    (w : RoleWorld) (v : SubWorld) :
  id (user s) = id (user s') → app_metadata (user s) = app_metadata (user s') →
  role_step (role_step w (RoleRender a (value {| session := Some s; isLoaded := l |}) env))
            (RoleRender a (value {| session := Some s'; isLoaded := l' |}) env)
    = role_step w (RoleRender a (value {| session := Some s; isLoaded := l |}) env) ∧
  sub_step (sub_step v (SubRender (value {| session := Some s; isLoaded := l |})))
           (SubRender (value {| session := Some s'; isLoaded := l' |}))
    = sub_step v (SubRender (value {| session := Some s; isLoaded := l |})).
Proof.
  intros Hid Hmeta. cbn [role_step sub_step].
  rewrite !useAppRole_world, !useSubscription_world.
  rewrite <- (role_deps_same_user a env s s' l l' Hid Hmeta).
  rewrite <- (sub_deps_same_user s s' l l' Hid).
  split; apply useEffect_idempotent.
Qed.

Lemma token_refresh_does_not_refetch_witness :
  network (role_step
             (role_step (mount []) (RoleRender None (Scenario.signed_in Scenario.u1) Scenario.on_event))
             (RoleRender None
                (value {| session := Some {| user := Scenario.mkUser "u1" (Some ∅) None;
                                             access_token := "jwt-2" |};
                          isLoaded := true |})
                Scenario.on_event))
    = [{| rq_user_id := "u1"; rq_app := "event" |}].
Proof.
  unfold Scenario.signed_in.
  rewrite (proj1 (token_refresh_does_not_refetch None Scenario.on_event
                    (Scenario.session_of Scenario.u1)
                    {| user := Scenario.mkUser "u1" (Some ∅) None; access_token := "jwt-2" |}
                    true true (mount []) (mount None) eq_refl eq_refl)).
  vm_compute. reflexivity.
Defined.

(** ** Queries *)

Lemma role_network_step (w : RoleWorld) (e : RoleEvent) :
  network (role_step w e) = network w ∨
  ∃ q, network (role_step w e) = network w ++ [q] ∧ is_role_settle e = false ∧
       truthy (rq_user_id q) = true ∧ truthy (rq_app q) = true.
Proof.
  destruct e as [a ctx env | c r]; cbn [role_step].
  - rewrite useAppRole_world. destruct (role_deps a ctx env) as [[u ap] sa]. cbn [fst snd].
    destruct (decide (last_deps w = Some (u, ap, sa))) as [Hs | Hn].
    { left. by rewrite useEffect_same. }
    destruct (role_query (u, ap, sa)) as [q|] eqn:Hq.
    + right. exists q.
      rewrite (useEffect_fetch _ _ q w (useAppRole_effect_fetch u ap sa q Hq) Hn).
      split; [done |]. split; [done |].
      unfold role_query in Hq. destruct u as [u|], ap as [ap|], sa; try done.
      destruct (truthy u && truthy ap) eqn:E; [| done].
      apply andb_prop in E. by simplify_eq.
    + left. unfold useEffect. rewrite decide_False by done.
      rewrite useAppRole_effect_idle by done. by destruct sa, (cleanup w).
  - left. rewrite (settle_spec _ _ _ c r w useAppRole_then_spec).
    destruct (inflight w !! c); [| done]. by destruct (bool_decide _).
Qed.

Lemma sub_network_step (w : SubWorld) (e : SubEvent) :
  network (sub_step w e) = network w ∨
  ∃ q, network (sub_step w e) = network w ++ [q] ∧ is_sub_settle e = false ∧
       truthy (sq_user_id q) = true.
Proof.
  destruct e as [ctx | c r]; cbn [sub_step].
  - rewrite useSubscription_world.
    destruct (decide (last_deps w = Some (sub_deps ctx))) as [Hs | Hn].
    { left. by rewrite useEffect_same. }
    destruct (sub_query (sub_deps ctx)) as [q|] eqn:Hq.
    + right. exists q.
      rewrite (useEffect_fetch _ _ q w (useSubscription_effect_fetch _ q Hq) Hn).
      split; [done |]. split; [done |].
      unfold sub_query in Hq. destruct (sub_deps ctx) as [u|]; [| done].
      destruct (truthy u) eqn:E; [| done]. by simplify_eq.
    + left. unfold useEffect. rewrite decide_False by done.
      unfold sub_query, useSubscription_effect in *.
      destruct (sub_deps ctx) as [u|]; [destruct (truthy u); [done |] |];
        by destruct (cleanup w).
  - left. rewrite (settle_spec _ _ _ c r w useSubscription_then_spec).
    destruct (inflight w !! c); [| done]. by destruct (bool_decide _).
Qed.

(** X10.  In every run of the two hooks, each query sent carries a
    non-empty user id (and, for roles, a non-empty application): the
    stores are never asked about "no user" or "no application".  A
    promise that settles sends nothing, and a render sends at most one
    query, so the queries sent never outnumber the renders. *)
Theorem queries_are_keyed (tr : list RoleEvent) (tr' : list SubEvent) :
  Forall (λ q, truthy (rq_user_id q) = true ∧ truthy (rq_app q) = true) (network (role_run tr)) ∧
  length (network (role_run tr)) + length (List.filter is_role_settle tr) ≤ length tr ∧
  Forall (λ q, truthy (sq_user_id q) = true) (network (sub_run tr')) ∧
  length (network (sub_run tr')) + length (List.filter is_sub_settle tr') ≤ length tr'.
Proof.
  assert (Hrole : ∀ tr (w : RoleWorld),
            Forall (λ q, truthy (rq_user_id q) = true ∧ truthy (rq_app q) = true) (network w) →
            Forall (λ q, truthy (rq_user_id q) = true ∧ truthy (rq_app q) = true)
                   (network (fold_left role_step tr w)) ∧
            length (network (fold_left role_step tr w)) + length (List.filter is_role_settle tr)
              ≤ length (network w) + length tr).
  { clear. induction tr as [| e tr IH]; intros w Hw; cbn [fold_left List.filter length].
    - split; [done | lia].
    - destruct (role_network_step w e) as [He | (q & He & Hs & Hu & Ha)].
      + destruct (IH (role_step w e)) as [H1 H2]; [by rewrite He |].
        split; [done |]. rewrite He in H2. destruct (is_role_settle e); cbn [length]; lia.
      + destruct (IH (role_step w e)) as [H1 H2].
        { rewrite He. apply Forall_app. split; [done |]. by constructor. }
        split; [done |]. rewrite He, length_app in H2. rewrite Hs. cbn [length] in *. lia. }
  assert (Hsub : ∀ tr (w : SubWorld),
            Forall (λ q, truthy (sq_user_id q) = true) (network w) →
            Forall (λ q, truthy (sq_user_id q) = true) (network (fold_left sub_step tr w)) ∧
            length (network (fold_left sub_step tr w)) + length (List.filter is_sub_settle tr)
              ≤ length (network w) + length tr).
  { clear. induction tr as [| e tr IH]; intros w Hw; cbn [fold_left List.filter length].
    - split; [done | lia].
    - destruct (sub_network_step w e) as [He | (q & He & Hs & Hu)].
      + destruct (IH (sub_step w e)) as [H1 H2]; [by rewrite He |].
        split; [done |]. rewrite He in H2. destruct (is_sub_settle e); cbn [length]; lia.
      + destruct (IH (sub_step w e)) as [H1 H2].
        { rewrite He. apply Forall_app. split; [done |]. by constructor. }
        split; [done |]. rewrite He, length_app in H2. rewrite Hs. cbn [length] in *. lia. }
  destruct (Hrole tr (mount [])) as [R1 R2]; [constructor |].
  destruct (Hsub tr' (mount None)) as [S1 S2]; [constructor |].
  cbn [mount network length] in R2, S2. unfold role_run, sub_run.
  repeat split; try done; lia.
Qed.

(** ** No user, or no application *)

Lemma signed_out_no_query (a : option AppId) (ctx : AuthContextType) (env : Env) :
  ctx_user ctx = None →
  useIsSuperAdmin ctx = false ∧ role_query (role_deps a ctx env) = None ∧
  sub_query (sub_deps ctx) = None.
Proof.
  intros H. unfold role_query, role_deps, sub_query, sub_deps, useIsSuperAdmin, useUser.
  by rewrite H.
Qed.

Lemma useAppRole_idle_render a ctx env (w : RoleWorld) :
  wf w → useIsSuperAdmin ctx = false → role_query (role_deps a ctx env) = None →
  last_deps w ≠ Some (role_deps a ctx env) →
  observable (snd (useAppRole a ctx env w)) = ([], false, console w) ∧
  network (snd (useAppRole a ctx env w)) = network w ∧
  last_deps (snd (useAppRole a ctx env w)) = Some (role_deps a ctx env) ∧
  (∀ c q, inflight (snd (useAppRole a ctx env w)) !! c = Some q →
          c ∈ cancelled (snd (useAppRole a ctx env w))).
Proof.
  intros Hwf Hsa Hq Hd. rewrite useAppRole_world.
  assert (Es : (role_deps a ctx env).2 = false) by done.
  destruct (role_deps a ctx env) as [[u ap] sa]. cbn [fst snd] in *. subst sa.
  unfold useEffect. rewrite decide_False by done.
  rewrite useAppRole_effect_idle by done.
  pose proof (inflight_after_cleanup w) as Hall. unfold after_cleanup in Hall.
  destruct (cleanup w) as [c0|]; cbn; repeat split; try done;
    intros c q Hc; by eapply Hall.
Qed.

Lemma role_settles_dropped (post : list RoleEvent) (w : RoleWorld) :
  Forall (λ e, is_role_settle e = true) post →
  (∀ c q, inflight w !! c = Some q → c ∈ cancelled w) →
  observable (fold_left role_step post w) = observable w ∧
  network (fold_left role_step post w) = network w ∧
  last_deps (fold_left role_step post w) = last_deps w.
Proof.
  intros Hpost. revert w. induction Hpost as [| e post He _ IH]; intros w Hall; [done |].
  destruct e as [| c r]; [discriminate He |]. cbn [fold_left role_step].
  destruct (settle_all_cancelled useAppRole_then _ _ c r w useAppRole_then_spec Hall)
    as (E1 & E2 & E3 & Hall').
  destruct (IH _ Hall') as (-> & -> & ->). done.
Qed.

(** X11.  With no usable user id or no application (signed out, or an
    unrecognised host without an override), and no privileged flag, the
    role hook asks the store nothing: once the effect has run the roles
    are empty and [loading] is false, [RequireRole] returns its fallback,
    and whatever promises of earlier queries settle afterwards, nothing
    changes and nothing is logged. *)
Theorem useAppRole_without_user_or_app
    (tr post : list RoleEvent) (p : RequireRoleProps) (ctx : AuthContextType) (env : Env) :
  useIsSuperAdmin ctx = false →
  role_query (role_deps (rr_app p) ctx env) = None →
  last_deps (role_run tr) ≠ Some (role_deps (rr_app p) ctx env) →
  Forall (λ e, is_role_settle e = true) post →
  observable (role_run (tr ++ RoleRender (rr_app p) ctx env :: post))
    = ([], false, console (role_run tr)) ∧
  network (role_run (tr ++ RoleRender (rr_app p) ctx env :: post)) = network (role_run tr) ∧
  (∀ r, hasRole (fst (useAppRole (rr_app p) ctx env
                        (role_run (tr ++ RoleRender (rr_app p) ctx env :: post)))) r = false) ∧
  fst (RequireRole p ctx env (role_run (tr ++ RoleRender (rr_app p) ctx env :: post)))
    = fragment (default null (rr_fallback p)).
Proof.
  intros Hsa Hq Hd Hpost.
  rewrite role_run_app. cbn [fold_left role_step].
  destruct (useAppRole_idle_render (rr_app p) ctx env (role_run tr) (role_run_wf tr) Hsa Hq Hd)
    as (Hobs & Hnet & Hdeps & Hall).
  destruct (role_settles_dropped post _ Hpost Hall) as (Hobs' & Hnet' & _).
  rewrite Hobs in Hobs'. rewrite Hnet in Hnet'.
  set (w := fold_left role_step post _) in *.
  unfold observable in Hobs'. injection Hobs' as Hcell Hload Hcons.
  split; [unfold observable; by rewrite Hcell, Hload, Hcons |]. split; [done |].
  destruct (useAppRole_view (rr_app p) ctx env w Hsa) as (_ & Hl & Hh).
  split; [intros r; by rewrite Hh, Hcell |].
  unfold RequireRole. destruct (useAppRole (rr_app p) ctx env w) as [res w'].
  cbn [fst] in *. by rewrite Hl, Hload, Hh, Hcell.
Qed.

Lemma useAppRole_without_user_or_app_witness :
  observable (role_run ([RoleRender None (Scenario.signed_in Scenario.u1) Scenario.on_event]
                        ++ RoleRender None (value {| session := None; isLoaded := true |})
                                      Scenario.on_event
                           :: [RoleSettle 0 {| data := Some [{| role := "editor" |}];
                                               error := None |}]))
    = ([], false, []).
Proof.
  refine (proj1 (useAppRole_without_user_or_app
                   [RoleRender None (Scenario.signed_in Scenario.u1) Scenario.on_event]
                   [RoleSettle 0 {| data := Some [{| role := "editor" |}]; error := None |}]
                   {| rr_role := "editor"; rr_app := None; rr_children := null;
                      rr_fallback := None |}
                   (value {| session := None; isLoaded := true |}) Scenario.on_event _ _ _ _)).
  - reflexivity.
  - vm_compute. reflexivity.
  - vm_compute. discriminate.
  - repeat constructor.
Defined.

(** ** A role query that settles *)

Lemma role_fetch_settle (tr : list RoleEvent) a ctx env q r :
  role_query (role_deps a ctx env) = Some q →
  last_deps (role_run tr) ≠ Some (role_deps a ctx env) →
  observable (role_run (tr ++ [RoleRender a ctx env; RoleSettle (next_closure (role_run tr)) r]))
    = (roles_of r, false, console (role_run tr) ++ logged "[useAppRole]" r).
Proof.
  intros Hq Hd. rewrite role_run_app. cbn [fold_left role_step]. rewrite useAppRole_world.
  destruct (role_deps a ctx env) as [[u ap] sa]. cbn [fst snd].
  by destruct (fetch_then_settle useAppRole_then _ _ _ (u, ap, sa) q r (role_run tr)
                 useAppRole_then_spec (useAppRole_effect_fetch u ap sa q Hq)
                 (role_run_wf tr) Hd) as [-> _].
Qed.

Lemma RequireRole_by_cells (p : RequireRoleProps) ctx env (w : RoleWorld) :
  useIsSuperAdmin ctx = false →
  fst (RequireRole p ctx env w) =
    if loading w then null
    else if includes (cell w) (rr_role p) then fragment (rr_children p)
         else fragment (default null (rr_fallback p)).
Proof.
  intros Hsa. unfold RequireRole.
  destruct (useAppRole_view (rr_app p) ctx env w Hsa) as (_ & Hl & Hh).
  destruct (useAppRole (rr_app p) ctx env w) as [res w']. cbn [fst] in *.
  rewrite Hl, Hh. by destruct (loading w), (includes (cell w) (rr_role p)).
Qed.

(** X12.  Roles fail closed.  When the query of the current identity
    settles with an error, or without an error but with no data, the
    roles become empty and [loading] false, [hasRole] is false for every
    role and [RequireRole] returns its fallback; an error is logged once
    with its message, an empty answer is not logged. *)
Theorem useAppRole_fails_closed
    (tr : list RoleEvent) (p : RequireRoleProps) (ctx : AuthContextType) (env : Env)
    (q : RoleQuery) (r : Response (list RoleRow)) :
  role_query (role_deps (rr_app p) ctx env) = Some q →
  last_deps (role_run tr) ≠ Some (role_deps (rr_app p) ctx env) →
  is_Some (error r) ∨ data r = None →
  observable (role_run (tr ++ [RoleRender (rr_app p) ctx env;
                               RoleSettle (next_closure (role_run tr)) r]))
    = ([], false,
       console (role_run tr)
         ++ match error r with Some e => [["[useAppRole]"; message e]] | None => [] end) ∧
  (∀ x, hasRole (fst (useAppRole (rr_app p) ctx env
                        (role_run (tr ++ [RoleRender (rr_app p) ctx env;
                                          RoleSettle (next_closure (role_run tr)) r])))) x
        = false) ∧
  fst (RequireRole p ctx env
         (role_run (tr ++ [RoleRender (rr_app p) ctx env;
                           RoleSettle (next_closure (role_run tr)) r])))
    = fragment (default null (rr_fallback p)).
Proof.
  intros Hq Hd Hr.
  pose proof (role_query_not_privileged _ _ _ _ Hq) as Hsa.
  pose proof (role_fetch_settle tr _ ctx env q r Hq Hd) as Hobs.
  assert (Hnil : roles_of r = []).
  { unfold roles_of. destruct Hr as [[e ->] | Hdata]; [done |].
    destruct (error r); [done |]. by rewrite Hdata. }
  rewrite Hnil in Hobs. unfold logged in Hobs.
  set (w := role_run (tr ++ _)) in *.
  unfold observable in Hobs. injection Hobs as Hcell Hload Hcons.
  split; [unfold observable; by rewrite Hcell, Hload, Hcons |].
  split.
  - intros x. destruct (useAppRole_view (rr_app p) ctx env w Hsa) as (_ & _ & ->).
    by rewrite Hcell.
  - rewrite RequireRole_by_cells by done. by rewrite Hload, Hcell.
Qed.

Lemma useAppRole_fails_closed_witness :
  observable (role_run ([] ++ [RoleRender None (Scenario.signed_in Scenario.u1) Scenario.on_event;
                               RoleSettle (next_closure (role_run []))
                                          (transport_failure "Failed to fetch")]))
    = ([], false, [] ++ [["[useAppRole]"; "Failed to fetch"]]).
Proof.
  refine (proj1 (useAppRole_fails_closed []
                   {| rr_role := "editor"; rr_app := None; rr_children := null;
                      rr_fallback := None |}
                   (Scenario.signed_in Scenario.u1) Scenario.on_event
                   {| rq_user_id := "u1"; rq_app := "event" |}
                   (transport_failure "Failed to fetch") _ _ _)).
  - vm_compute. reflexivity.
  - vm_compute. discriminate.
  - left. by eexists.
Defined.

Lemma includes_granted (user_roles : list UserRole) (q : RoleQuery) (x : string) :
  includes (roles_of (role_answer user_roles q)) x
    = granted user_roles (rq_user_id q) (rq_app q) x.
Proof.
  apply eq_true_iff_eq. rewrite includes_In. apply role_answer_scoped.
Qed.

(** X13.  Roles are exact.  When the query of the current identity
    settles with the store's answer, [hasRole] is true for exactly the
    roles the table grants to that user in that application, and
    [RequireRole] returns the children for such a role and the fallback
    for any other; nothing is logged. *)
Theorem useAppRole_answer_is_exact
    (user_roles : list UserRole) (tr : list RoleEvent) (p : RequireRoleProps)
    (ctx : AuthContextType) (env : Env) (q : RoleQuery) :
  role_query (role_deps (rr_app p) ctx env) = Some q →
  last_deps (role_run tr) ≠ Some (role_deps (rr_app p) ctx env) →
  (∀ x, hasRole (fst (useAppRole (rr_app p) ctx env
                        (role_run (tr ++ [RoleRender (rr_app p) ctx env;
                                          RoleSettle (next_closure (role_run tr))
                                                     (role_answer user_roles q)])))) x
        = granted user_roles (rq_user_id q) (rq_app q) x) ∧
  fst (RequireRole p ctx env
         (role_run (tr ++ [RoleRender (rr_app p) ctx env;
                           RoleSettle (next_closure (role_run tr)) (role_answer user_roles q)])))
    = (if granted user_roles (rq_user_id q) (rq_app q) (rr_role p)
       then fragment (rr_children p)
       else fragment (default null (rr_fallback p))) ∧
  console (role_run (tr ++ [RoleRender (rr_app p) ctx env;
                            RoleSettle (next_closure (role_run tr)) (role_answer user_roles q)]))
    = console (role_run tr).
Proof.
  intros Hq Hd.
  pose proof (role_query_not_privileged _ _ _ _ Hq) as Hsa.
  pose proof (role_fetch_settle tr _ ctx env q (role_answer user_roles q) Hq Hd) as Hobs.
  set (w := role_run (tr ++ _)) in *.
  unfold observable in Hobs. injection Hobs as Hcell Hload Hcons.
  split; [| split].
  - intros x. destruct (useAppRole_view (rr_app p) ctx env w Hsa) as (_ & _ & ->).
    rewrite Hcell. apply includes_granted.
  - rewrite RequireRole_by_cells by done. by rewrite Hload, Hcell, includes_granted.
  - rewrite Hcons. unfold logged. cbn [role_answer error]. apply app_nil_r.
Qed.

Lemma useAppRole_answer_is_exact_witness :
  fst (RequireRole {| rr_role := "editor"; rr_app := None; rr_children := element "editor-tools";
                      rr_fallback := Some (element "denied") |}
         (Scenario.signed_in Scenario.u1) Scenario.on_event
         (role_run ([] ++ [RoleRender None (Scenario.signed_in Scenario.u1) Scenario.on_event;
                           RoleSettle (next_closure (role_run []))
                             (role_answer Scenario.user_roles
                                {| rq_user_id := "u1"; rq_app := "event" |})])))
    = fragment (element "editor-tools").
Proof.
  refine (proj1 (proj2 (useAppRole_answer_is_exact Scenario.user_roles []
                   {| rr_role := "editor"; rr_app := None; rr_children := element "editor-tools";
                      rr_fallback := Some (element "denied") |}
                   (Scenario.signed_in Scenario.u1) Scenario.on_event
                   {| rq_user_id := "u1"; rq_app := "event" |} _ _))).
  - vm_compute. reflexivity.
  - vm_compute. discriminate.
Defined.

(** ** RequirePro *)

Lemma sub_fetch_settle (tr : list SubEvent) ctx q r :
  sub_query (sub_deps ctx) = Some q →
  last_deps (sub_run tr) ≠ Some (sub_deps ctx) →
  observable (sub_run (tr ++ [SubRender ctx])) = (cell (sub_run tr), true, console (sub_run tr)) ∧
  network (sub_run (tr ++ [SubRender ctx])) = network (sub_run tr) ++ [q] ∧
  observable (sub_run (tr ++ [SubRender ctx; SubSettle (next_closure (sub_run tr)) r]))
    = (subscription_of r, false, console (sub_run tr) ++ logged "[useSubscription]" r).
Proof.
  intros Hq Hd. rewrite !sub_run_app. cbn [fold_left sub_step]. rewrite useSubscription_world.
  destruct (fetch_then_settle useSubscription_then _ _ _ (sub_deps ctx) q r (sub_run tr)
              useSubscription_then_spec (useSubscription_effect_fetch _ q Hq)
              (sub_run_wf tr) Hd) as [-> _].
  by rewrite (useEffect_fetch _ _ q _ (useSubscription_effect_fetch _ q Hq) Hd).
Qed.

Lemma RequirePro_by_cells (p : GateProps) ctx (w : SubWorld) :
  fst (RequirePro p ctx w) =
    if loading w then null
    else if isPro (fst (useSubscription ctx w)) then fragment (children p)
         else fragment (default null (fallback p)).
Proof.
  unfold RequirePro.
  destruct (useSubscription_view ctx w) as (_ & _ & Hl).
  destruct (useSubscription ctx w) as [res w']. cbn [fst] in *.
  rewrite Hl. by destruct (loading w), (isPro res).
Qed.

(** X14.  The subscription hook has no short-circuit for the privileged
    flag.  For a privileged identity with a user id the effect still
    sends the lookup, and [RequirePro] returns [null] while it is in
    flight; once it has settled, with whatever response, even an error,
    [RequirePro] returns the children.  [RequireRole], by contrast,
    returns the children of such an identity at every render. *)
Theorem RequirePro_super_admin_waits
    (tr : list SubEvent) (p : GateProps) (ctx : AuthContextType)
    (q : SubQuery) (r : Response Subscription) :
  useIsSuperAdmin ctx = true →
  sub_query (sub_deps ctx) = Some q →
  last_deps (sub_run tr) ≠ Some (sub_deps ctx) →
  network (sub_run (tr ++ [SubRender ctx])) = network (sub_run tr) ++ [q] ∧
  fst (RequirePro p ctx (sub_run (tr ++ [SubRender ctx]))) = null ∧
  fst (RequirePro p ctx
         (sub_run (tr ++ [SubRender ctx; SubSettle (next_closure (sub_run tr)) r])))
    = fragment (children p) ∧
  (∀ (pr : RequireRoleProps) (env : Env) (w : RoleWorld),
     fst (RequireRole pr ctx env w) = fragment (rr_children pr)).
Proof.
  intros Hsa Hq Hd.
  destruct (sub_fetch_settle tr ctx q r Hq Hd) as (H1 & H2 & H3).
  unfold observable in H1, H3.
  injection H1 as _ Hl1 _. injection H3 as _ Hl3 _.
  split; [done |]. rewrite !RequirePro_by_cells, Hl1, Hl3.
  split; [done |]. split.
  - unfold useSubscription. cbn [fst isPro]. by rewrite Hsa.
  - intros pr env w. unfold RequireRole, useAppRole. by rewrite Hsa.
Qed.

Lemma RequirePro_super_admin_waits_witness :
  fst (RequirePro {| children := element "pro-tools"; fallback := Some (element "upgrade") |}
         (Scenario.signed_in Scenario.admin)
         (sub_run ([] ++ [SubRender (Scenario.signed_in Scenario.admin)]))) = null ∧
  fst (RequirePro {| children := element "pro-tools"; fallback := Some (element "upgrade") |}
         (Scenario.signed_in Scenario.admin)
         (sub_run ([] ++ [SubRender (Scenario.signed_in Scenario.admin);
                          SubSettle (next_closure (sub_run []))
                                    (transport_failure "Failed to fetch")])))
    = fragment (element "pro-tools").
Proof.
  destruct (RequirePro_super_admin_waits []
                   {| children := element "pro-tools"; fallback := Some (element "upgrade") |}
                   (Scenario.signed_in Scenario.admin) {| sq_user_id := "root" |}
                   (transport_failure "Failed to fetch")) as (_ & H1 & H2 & _);
    [| | | exact (conj H1 H2)].
  - vm_compute. reflexivity.
  - vm_compute. reflexivity.
  - vm_compute. discriminate.
Defined.

(** X15.  Without the privileged flag, once the lookup of the current
    identity has settled [RequirePro] returns the children exactly when
    the response carries no error and a row whose plan is ["pro"] and
    whose status is ["active"] or ["trialing"]; for a cancelled Pro
    plan, another plan, no row or an error it returns the fallback. *)
Theorem RequirePro_after_lookup
    (tr : list SubEvent) (p : GateProps) (ctx : AuthContextType)
    (q : SubQuery) (r : Response Subscription) :
  useIsSuperAdmin ctx = false →
  sub_query (sub_deps ctx) = Some q →
  last_deps (sub_run tr) ≠ Some (sub_deps ctx) →
  ((∃ s, error r = None ∧ data r = Some s ∧ pro_and_active s) →
   fst (RequirePro p ctx
          (sub_run (tr ++ [SubRender ctx; SubSettle (next_closure (sub_run tr)) r])))
     = fragment (children p)) ∧
  (¬ (∃ s, error r = None ∧ data r = Some s ∧ pro_and_active s) →
   fst (RequirePro p ctx
          (sub_run (tr ++ [SubRender ctx; SubSettle (next_closure (sub_run tr)) r])))
     = fragment (default null (fallback p))).
Proof.
  intros Hsa Hq Hd.
  destruct (sub_fetch_settle tr ctx q r Hq Hd) as (_ & _ & H3).
  unfold observable in H3. injection H3 as Hc Hl _.
  rewrite !RequirePro_by_cells, Hl.
  unfold useSubscription. cbn [fst isPro]. rewrite Hsa, Hc. cbn [orb].
  unfold subscription_of, pro_and_active.
  destruct (error r) as [e|]; cbn [fmap option_fmap option_map default from_option].
  { split; [by intros (s & ? & _) | done]. }
  destruct (data r) as [s|]; cbn [fmap option_fmap option_map default from_option].
  - unfold Datatypes.id.
    destruct (String.eqb (plan s) "pro" && (String.eqb (status s) "active"
                                            || String.eqb (status s) "trialing")) eqn:E.
    + split; [done |]. intros Hn. destruct Hn. exists s.
      apply andb_prop in E as [Ep Es]. apply orb_prop in Es.
      rewrite !String.eqb_eq in *. done.
    + split; [| done]. intros (s' & _ & [= <-] & Hp & Hs).
      rewrite <- !String.eqb_eq, <- orb_true_iff in *. by rewrite Hp, Hs in E.
  - split; [by intros (s & _ & ? & _) | done].
Qed.

Lemma RequirePro_after_lookup_witness :
  fst (RequirePro {| children := element "pro-tools"; fallback := Some (element "upgrade") |}
         (Scenario.signed_in Scenario.u1)
         (sub_run ([] ++ [SubRender (Scenario.signed_in Scenario.u1);
                          SubSettle (next_closure (sub_run []))
                            (single [Scenario.subscription_row "u1" "pro" "canceled"])])))
    = fragment (default null (Some (element "upgrade"))).
Proof.
  refine (proj2 (RequirePro_after_lookup []
                   {| children := element "pro-tools"; fallback := Some (element "upgrade") |}
                   (Scenario.signed_in Scenario.u1) {| sq_user_id := "u1" |}
                   (single [Scenario.subscription_row "u1" "pro" "canceled"]) _ _ _) _).
  - vm_compute. reflexivity.
  - vm_compute. reflexivity.
  - vm_compute. discriminate.
  - intros (s & _ & [= <-] & _ & [Hs | Hs]); discriminate Hs.
Defined.

(** ** Signing out *)

Lemma useSubscription_idle_render ctx (w : SubWorld) :
  wf w → sub_query (sub_deps ctx) = None → last_deps w ≠ Some (sub_deps ctx) →
  observable (snd (useSubscription ctx w)) = (None, false, console w) ∧
  network (snd (useSubscription ctx w)) = network w ∧
  (∀ c q, inflight (snd (useSubscription ctx w)) !! c = Some q →
          c ∈ cancelled (snd (useSubscription ctx w))).
Proof.
  intros Hwf Hq Hd. rewrite useSubscription_world.
  unfold useEffect. rewrite decide_False by done.
  pose proof (inflight_after_cleanup w) as Hall. unfold after_cleanup in Hall.
  unfold sub_query, useSubscription_effect in *.
  destruct (sub_deps ctx) as [u|]; [destruct (truthy u); [done |] |];
    destruct (cleanup w) as [c0|]; cbn; repeat split; try done;
    intros c q Hc; by eapply Hall.
Qed.

Lemma sub_settles_dropped (post : list SubEvent) (w : SubWorld) :
  Forall (λ e, is_sub_settle e = true) post →
  (∀ c q, inflight w !! c = Some q → c ∈ cancelled w) →
  observable (fold_left sub_step post w) = observable w ∧
  network (fold_left sub_step post w) = network w.
Proof.
  intros Hpost. revert w. induction Hpost as [| e post He _ IH]; intros w Hall; [done |].
  destruct e as [| c r]; [discriminate He |]. cbn [fold_left sub_step].
  destruct (settle_all_cancelled useSubscription_then _ _ c r w useSubscription_then_spec Hall)
    as (E1 & E2 & E3 & Hall').
  destruct (IH _ Hall') as (-> & ->). done.
Qed.

(** X16.  Signing out resets the subscription, from the next render on.
    The render in which the identity becomes null still returns the
    [subscription] and [loading] that the cells held before it; its
    effect sends nothing and clears the cell.  Once that effect has run,
    every later render of the null identity has the plan ["free"],
    [isPro] and [isActive] false and [loading] false, and [RequirePro]
    returns its fallback; a lookup of the previous user that settles
    after the effect is dropped, so a Pro row arriving late changes
    nothing. *)
Theorem useSubscription_signed_out
    (tr post : list SubEvent) (p : GateProps) (ctx : AuthContextType) :
  ctx_user ctx = None →
  last_deps (sub_run tr) ≠ Some (sub_deps ctx) →
  Forall (λ e, is_sub_settle e = true) post →
  subscription (fst (useSubscription ctx (sub_run tr))) = cell (sub_run tr) ∧
  us_loading (fst (useSubscription ctx (sub_run tr))) = loading (sub_run tr) ∧
  network (sub_run (tr ++ SubRender ctx :: post)) = network (sub_run tr) ∧
  console (sub_run (tr ++ SubRender ctx :: post)) = console (sub_run tr) ∧
  us_plan (fst (useSubscription ctx (sub_run (tr ++ SubRender ctx :: post)))) = "free" ∧
  isPro (fst (useSubscription ctx (sub_run (tr ++ SubRender ctx :: post)))) = false ∧
  isActive (fst (useSubscription ctx (sub_run (tr ++ SubRender ctx :: post)))) = false ∧
  subscription (fst (useSubscription ctx (sub_run (tr ++ SubRender ctx :: post)))) = None ∧
  us_loading (fst (useSubscription ctx (sub_run (tr ++ SubRender ctx :: post)))) = false ∧
  fst (RequirePro p ctx (sub_run (tr ++ SubRender ctx :: post)))
    = fragment (default null (fallback p)).
Proof.
  intros Hout Hd Hpost.
  split; [reflexivity |]. split; [reflexivity |].
  destruct (signed_out_no_query None ctx {| hostname := None; VITE_APP_ID := None |} Hout)
    as (Hsa & _ & Hq).
  rewrite sub_run_app. cbn [fold_left sub_step].
  destruct (useSubscription_idle_render ctx (sub_run tr) (sub_run_wf tr) Hq Hd)
    as (Hobs & Hnet & Hall).
  destruct (sub_settles_dropped post _ Hpost Hall) as (Hobs' & Hnet').
  rewrite Hobs in Hobs'. rewrite Hnet in Hnet'.
  set (w := fold_left sub_step post _) in *.
  unfold observable in Hobs'. injection Hobs' as Hcell Hload Hcons.
  rewrite RequirePro_by_cells.
  unfold useSubscription. cbn [fst us_plan isPro isActive subscription us_loading].
  by rewrite Hsa, Hcell, Hload.
Qed.

Lemma useSubscription_signed_out_witness :
  isPro (fst (useSubscription (value {| session := None; isLoaded := true |})
                (sub_run ([SubRender (Scenario.signed_in Scenario.u1)]
                          ++ SubRender (value {| session := None; isLoaded := true |})
                             :: [SubSettle 0 (single [Scenario.subscription_row "u1" "pro" "active"])]))))
    = false.
Proof.
  refine (proj1 (proj2 (proj2 (proj2 (proj2 (proj2 (useSubscription_signed_out
            [SubRender (Scenario.signed_in Scenario.u1)]
            [SubSettle 0 (single [Scenario.subscription_row "u1" "pro" "active"])]
            {| children := null; fallback := None |}
            (value {| session := None; isLoaded := true |}) _ _ _))))))).
  - reflexivity.
  - vm_compute. discriminate.
  - repeat constructor.
Defined.

(** ** The privileged flag *)

(** X17.  The privileged flag is read from [app_metadata] alone.  An
    identity is a super admin exactly when it is signed in and the [role]
    of its [app_metadata] is the string ["super_admin"]; two sessions
    with the same [app_metadata] get the same answer whatever their
    [user_metadata], e-mail, id or token; and nobody is a super admin
    while signed out. *)
Theorem super_admin_from_app_metadata (s s' : Session) (l l' : bool) :
  (useIsSuperAdmin (value {| session := Some s; isLoaded := l |}) = true ↔
   default ∅ (app_metadata (user s)) !! "role" = Some (JStr "super_admin")) ∧
  (app_metadata (user s) = app_metadata (user s') →
   useIsSuperAdmin (value {| session := Some s; isLoaded := l |})
     = useIsSuperAdmin (value {| session := Some s'; isLoaded := l' |})) ∧
  useIsSuperAdmin (value {| session := None; isLoaded := l |}) = false.
Proof.
  split; [| split].
  - rewrite useIsSuperAdmin_flag. cbn [session]. split.
    + by intros (s0 & [= <-] & H).
    + intros H. by exists s.
  - intros Hmeta. unfold useIsSuperAdmin, useUser, value.
    cbn [ctx_user session fmap option_fmap option_map uu_user publicMetadata].
    by rewrite Hmeta.
  - reflexivity.
Qed.

Lemma super_admin_from_app_metadata_witness :
  useIsSuperAdmin
    (value {| session := Some {| user := Scenario.mkUser "mallory"
                                           (Some {[ "role" := JStr "super_admin" ]}) None;
                                 access_token := "jwt" |};
              isLoaded := true |}) = false.
Proof.
  rewrite <- (proj1 (proj2 (super_admin_from_app_metadata
                 (Scenario.session_of Scenario.u1)
                 {| user := Scenario.mkUser "mallory" (Some {[ "role" := JStr "super_admin" ]}) None;
                    access_token := "jwt" |} true true)) eq_refl).
  vm_compute. reflexivity.
Defined.

Lemma RequireRole_scoped_witness :
  fst (RequireRole {| rr_role := "editor"; rr_app := Some "garage";
                      rr_children := element "garage-admin";
                      rr_fallback := Some (element "denied") |}
                   (Scenario.signed_in Scenario.u1) Scenario.on_event
                   (role_store_run Scenario.user_roles
                      [Rendered (Some "event") (Scenario.signed_in Scenario.u1) Scenario.on_event;
                       Answered 0;
                       Rendered (Some "garage") (Scenario.signed_in Scenario.u1) Scenario.on_event;
                       Answered 1]))
    = fragment (element "denied").
Proof.
  destruct (RequireRole_scoped Scenario.user_roles
              [Rendered (Some "event") (Scenario.signed_in Scenario.u1) Scenario.on_event;
               Answered 0;
               Rendered (Some "garage") (Scenario.signed_in Scenario.u1) Scenario.on_event;
               Answered 1]
              {| rr_role := "editor"; rr_app := Some "garage";
                 rr_children := element "garage-admin";
                 rr_fallback := Some (element "denied") |}
              (Scenario.signed_in Scenario.u1) Scenario.on_event) as [H | H].
  - vm_compute. reflexivity.
  - vm_compute. reflexivity.
  - intros q Hq. vm_compute in Hq. injection Hq as <-. vm_compute. reflexivity.
  - exfalso. vm_compute in H. discriminate H.
  - exact H.
Defined.

(** ** Loading *)

Lemma role_busy_step (w : RoleWorld) (e : RoleEvent) :
  wf w →
  (is_Some (last_deps w) → loading w = true →
   ∃ c q, inflight w !! c = Some q ∧ c ∉ cancelled w) →
  is_Some (last_deps (role_step w e)) → loading (role_step w e) = true →
  ∃ c q, inflight (role_step w e) !! c = Some q ∧ c ∉ cancelled (role_step w e).
Proof.
  intros Hwf IH. destruct e as [a ctx env | c r]; cbn [role_step].
  - rewrite useAppRole_world. destruct (role_deps a ctx env) as [[u ap] sa]. cbn [fst snd].
    destruct (decide (last_deps w = Some (u, ap, sa))) as [Hs | Hn].
    { by rewrite useEffect_same. }
    destruct (role_query (u, ap, sa)) as [q|] eqn:Hq.
    + rewrite (useEffect_fetch _ _ q w (useAppRole_effect_fetch u ap sa q Hq) Hn). simpl.
      intros _ _. exists (next_closure w), q. split; [apply lookup_insert_eq |].
      intros Hin%(after_cleanup_lt w _ Hwf). lia.
    + unfold useEffect. rewrite decide_False by done.
      rewrite useAppRole_effect_idle by done. intros _. by destruct sa, (cleanup w).
  - rewrite (settle_spec _ _ _ c r w useAppRole_then_spec).
    destruct (inflight w !! c) as [q|] eqn:Hq; [| done].
    destruct (bool_decide (c ∈ cancelled w)) eqn:Hc; [| done]. simpl.
    intros Hd Hl. destruct (IH Hd Hl) as (c' & q' & Hq' & Hc').
    exists c', q'. split; [| done]. apply lookup_delete_Some. split; [| done].
    intros <-. by apply bool_decide_eq_true in Hc.
Qed.

Lemma sub_busy_step (w : SubWorld) (e : SubEvent) :
  wf w →
  (is_Some (last_deps w) → loading w = true →
   ∃ c q, inflight w !! c = Some q ∧ c ∉ cancelled w) →
  is_Some (last_deps (sub_step w e)) → loading (sub_step w e) = true →
  ∃ c q, inflight (sub_step w e) !! c = Some q ∧ c ∉ cancelled (sub_step w e).
Proof.
  intros Hwf IH. destruct e as [ctx | c r]; cbn [sub_step].
  - rewrite useSubscription_world.
    destruct (decide (last_deps w = Some (sub_deps ctx))) as [Hs | Hn].
    { by rewrite useEffect_same. }
    destruct (sub_query (sub_deps ctx)) as [q|] eqn:Hq.
    + rewrite (useEffect_fetch _ _ q w (useSubscription_effect_fetch _ q Hq) Hn). simpl.
      intros _ _. exists (next_closure w), q. split; [apply lookup_insert_eq |].
      intros Hin%(after_cleanup_lt w _ Hwf). lia.
    + unfold useEffect. rewrite decide_False by done.
      unfold sub_query, useSubscription_effect in *. intros _.
      destruct (sub_deps ctx) as [u|]; [destruct (truthy u); [done |] |];
        by destruct (cleanup w).
  - rewrite (settle_spec _ _ _ c r w useSubscription_then_spec).
    destruct (inflight w !! c) as [q|] eqn:Hq; [| done].
    destruct (bool_decide (c ∈ cancelled w)) eqn:Hc; [| done]. simpl.
    intros Hd Hl. destruct (IH Hd Hl) as (c' & q' & Hq' & Hc').
    exists c', q'. split; [| done]. apply lookup_delete_Some. split; [| done].
    intros <-. by apply bool_decide_eq_true in Hc.
Qed.

(** X19.  [loading] is never stuck.  In every run of either hook, once
    the effect has run, whenever [loading] is true a promise is in flight
    whose closure is not cancelled, so that its settling will store a
    result and clear [loading]; and there is never more than one such
    promise: only one result can still be applied. *)
Theorem loading_has_a_live_query (tr : list RoleEvent) (tr' : list SubEvent) :
  (is_Some (last_deps (role_run tr)) → loading (role_run tr) = true →
   ∃ c q, inflight (role_run tr) !! c = Some q ∧ c ∉ cancelled (role_run tr)) ∧
  (∀ c c' q q', inflight (role_run tr) !! c = Some q → c ∉ cancelled (role_run tr) →
                inflight (role_run tr) !! c' = Some q' → c' ∉ cancelled (role_run tr) →
                c = c') ∧
  (is_Some (last_deps (sub_run tr')) → loading (sub_run tr') = true →
   ∃ c q, inflight (sub_run tr') !! c = Some q ∧ c ∉ cancelled (sub_run tr')) ∧
  (∀ c c' q q', inflight (sub_run tr') !! c = Some q → c ∉ cancelled (sub_run tr') →
                inflight (sub_run tr') !! c' = Some q' → c' ∉ cancelled (sub_run tr') →
                c = c').
Proof.
  split; [| split; [| split]].
  - assert (H : wf (role_run tr) ∧
                (is_Some (last_deps (role_run tr)) → loading (role_run tr) = true →
                 ∃ c q, inflight (role_run tr) !! c = Some q ∧ c ∉ cancelled (role_run tr))).
    { unfold role_run. apply (fold_left_invariant
        (λ w : RoleWorld, wf w ∧ (is_Some (last_deps w) → loading w = true →
                       ∃ c q, inflight w !! c = Some q ∧ c ∉ cancelled w))).
      - split; [apply wf_mount | by intros [? ?]].
      - intros w e [Hwf IH]. split; [by apply role_step_wf | by apply role_busy_step]. }
    apply H.
  - intros c c' q q' Hq Hc Hq' Hc'.
    pose proof (wf_live _ (role_run_wf tr) c q Hq Hc) as H1.
    pose proof (wf_live _ (role_run_wf tr) c' q' Hq' Hc') as H2. congruence.
  - assert (H : wf (sub_run tr') ∧
                (is_Some (last_deps (sub_run tr')) → loading (sub_run tr') = true →
                 ∃ c q, inflight (sub_run tr') !! c = Some q ∧ c ∉ cancelled (sub_run tr'))).
    { unfold sub_run. apply (fold_left_invariant
        (λ w : SubWorld, wf w ∧ (is_Some (last_deps w) → loading w = true →
                       ∃ c q, inflight w !! c = Some q ∧ c ∉ cancelled w))).
      - split; [apply wf_mount | by intros [? ?]].
      - intros w e [Hwf IH]. split; [by apply sub_step_wf | by apply sub_busy_step]. }
    apply H.
  - intros c c' q q' Hq Hc Hq' Hc'.
    pose proof (wf_live _ (sub_run_wf tr') c q Hq Hc) as H1.
    pose proof (wf_live _ (sub_run_wf tr') c' q' Hq' Hc') as H2. congruence.
Qed.

End EntitlementFacts.
